(** * Price monitor of [notification.py]: a shallow embedding

    The class [NotificationSystem] keeps a list of tickers and a dictionary
    of previous-close prices.  Its methods talk to three outside parties:
    the market-data client ([yf.Ticker(..).history], [.fast_info]), the
    console ([print]) and the SMS transport ([client.messages.create]).

    Modelling choices:
    - prices are binary64 floats ([numpy.float64] and Python [float]),
      embedded as Rocq's primitive floats, whose operations are the IEEE 754
      ones with round-to-nearest-even;
    - the dictionary [prev_close_prices] is a [gmap string float];
    - a method is a computation in a small monad that threads the object
      [self], records every interaction with an outside party in a trace,
      and either returns or raises;
    - the answers of the outside parties are given as functions of the
      ticker (market data, clock) or of the message body (transport). *)

From Stdlib Require Import PrimFloat.
From Stdlib Require FloatOps FloatAxioms SpecFloat.
From stdpp Require Import base strings list gmap.

Local Open Scope string_scope.
Local Open Scope list_scope.

(** Decimal literals such as [99.2] denote the nearest binary64 value, as
    they do in Python. *)
#[local] Set Warnings "-inexact-float".

(** ** The object *)

Record NotificationSystem : Type := mkNotificationSystem {
  tickers : list string;
  prev_close_prices : gmap string float
}.

(** [__init__]: the tickers are stored, the dictionary starts empty. *)
Definition init (tks : list string) : NotificationSystem :=
  {| tickers := tks; prev_close_prices := ∅ |}.

(** ** Exceptions, messages and the trace of interactions *)

Inductive exn : Type :=
| KeyError (key : string)          (* [self.prev_close_prices[ticker]] on a missing key *)
| MarketDataError (what : string)  (* anything but [KeyError] raised by the price query *)
| TransportError (body : string).  (* raised by [client.messages.create] *)

(** The three values the f-string of [check_price] is built from. *)
Record alert : Type := mkAlert {
  alert_ticker : string;
  alert_direction : string;
  alert_timestamp : string
}.

(** [f"{ticker}: {direction} >= 1%, Timestamp: {...}"] *)
Definition message (a : alert) : string :=
  alert_ticker a +:+ ": " +:+ alert_direction a +:+ " >= 1%, Timestamp: "
    +:+ alert_timestamp a.

Inductive event : Type :=
| EnterGetPrevClosePrices            (* [get_prev_close_prices] is entered *)
| EnterCheckPrice                    (* [check_price] is entered *)
| HistoryQuery (ticker : string)     (* [yf.Ticker(ticker).history(period='1d')] *)
| LastPriceQuery (ticker : string)   (* [yf.Ticker(ticker).fast_info['last_price']] *)
| PrintLine (line : string)              (* [print(line)] *)
| MessagesCreate (a : alert).        (* [client.messages.create(body=message a, ...)] *)

#[global] Instance alert_eq_dec : EqDecision alert.
Proof. solve_decision. Defined.

#[global] Instance event_eq_dec : EqDecision event.
Proof. solve_decision. Defined.

(** ** The monad of methods *)

Inductive result (A : Type) : Type :=
| Returned (a : A)
| Raised (e : exn).
Arguments Returned {A} a.
Arguments Raised {A} e.

Record run (A : Type) : Type := mkRun {
  trace : list event;
  final : NotificationSystem;
  outcome : result A
}.
Arguments mkRun {A} _ _ _.
Arguments trace {A} _.
Arguments final {A} _.
Arguments outcome {A} _.

Definition M (A : Type) : Type := NotificationSystem → run A.

Definition ret {A} (a : A) : M A :=
  λ self, mkRun [] self (Returned a).

Definition raise {A} (e : exn) : M A :=
  λ self, mkRun [] self (Raised e).

Definition bind {A B} (m : M A) (k : A → M B) : M B :=
  λ self,
    let r := m self in
    match outcome r with
    | Returned a =>
        let r' := k a (final r) in
        mkRun (trace r ++ trace r') (final r') (outcome r')
    | Raised e => mkRun (trace r) (final r) (Raised e)
    end.

#[global] Instance M_ret : MRet M := @ret.
#[global] Instance M_bind : MBind M := λ A B k m, bind m k.

Definition emit (e : event) : M unit :=
  λ self, mkRun [e] self (Returned tt).

Definition get_tickers : M (list string) :=
  λ self, mkRun [] self (Returned (tickers self)).

(** [self.prev_close_prices[ticker] = prev_close] *)
Definition set_prev_close (ticker : string) (prev_close : float) : M unit :=
  λ self,
    mkRun [] {| tickers := tickers self;
                prev_close_prices := <[ticker := prev_close]> (prev_close_prices self) |}
          (Returned tt).

(** [self.prev_close_prices[ticker]]: a missing key raises [KeyError]. *)
Definition lookup_prev_close (ticker : string) : M float :=
  λ self,
    match prev_close_prices self !! ticker with
    | Some p => mkRun [] self (Returned p)
    | None => mkRun [] self (Raised (KeyError ticker))
    end.

(** [for x in l: body(x)]; a [continue] is a body that returns early. *)
Fixpoint for_each {A} (body : A → M unit) (l : list A) : M unit :=
  match l with
  | [] => ret tt
  | x :: l' => body x ;; for_each body l'
  end.

(** ** [get_prev_close_prices] *)

(** A [DataFrame] of daily bars is represented by its ['Close'] column, in
    row order (oldest bar first). *)
Definition history_source : Type := string → list float.

(** [hist['Close'].iloc[0]] if [len(hist) >= 2], else
    [hist['Close'].iloc[-1]]; only used on a non-empty frame, whose first
    row is [first]. *)
Definition pick_prev_close (first : float) (hist : list float) : float :=
  if bool_decide (2 ≤ length hist)%nat then first
  else default first (last hist).

Definition no_history_line (ticker : string) : string :=
  "No historical data available for " +:+ ticker +:+ ". Skipping...".

Definition get_prev_close_prices_body
    (history : history_source) (ticker : string) : M unit :=
  emit (HistoryQuery ticker) ;;
  match history ticker with
  | [] => emit (PrintLine (no_history_line ticker))          (* [continue] *)
  | first :: _ =>
      set_prev_close ticker (pick_prev_close first (history ticker))
  end.

Definition get_prev_close_prices (history : history_source) : M unit :=
  emit EnterGetPrevClosePrices ;;
  tks ← get_tickers;
  for_each (get_prev_close_prices_body history) tks.

(** ** [check_price] and [send_sms] *)

(** What [stock.fast_info['last_price']] does. *)
Inductive fast_info_result : Type :=
| LastPrice (current_price : float)
| NoLastPrice                          (* raises [KeyError] *)
| QueryFails (what : string).          (* raises some other exception *)

(** The outside world during one tick. *)
Record tick : Type := mkTick {
  last_price : string → fast_info_result;
  now : string → string;            (* formatted [datetime.now()] when the ticker's message is built *)
  messages_create : string → bool   (* [false]: [client.messages.create] raises *)
}.

(** [((current_price - prev_close) / prev_close) * 100] *)
Definition pct_change (current_price prev_close : float) : float :=
  PrimFloat.mul (PrimFloat.div (PrimFloat.sub current_price prev_close) prev_close)
                100%float.

(** [abs(pct_change) >= 1] *)
Definition exceeds_threshold (pct : float) : bool :=
  PrimFloat.leb 1%float (PrimFloat.abs pct).

(** ['rise' if pct_change > 0 else 'drop'] *)
Definition direction (pct : float) : string :=
  if PrimFloat.ltb 0%float pct then "rise" else "drop".

Definition unavailable_line (ticker : string) : string :=
  "Unable to fetch the current price for " +:+ ticker +:+ ".".

Definition send_sms (env : tick) (a : alert) : M unit :=
  emit (MessagesCreate a) ;;
  if messages_create env (message a) then ret tt
  else raise (TransportError (message a)).

Definition check_price_body (env : tick) (ticker : string) : M unit :=
  emit (LastPriceQuery ticker) ;;
  match last_price env ticker with
  | QueryFails what => raise (MarketDataError what)
  | NoLastPrice => emit (PrintLine (unavailable_line ticker))   (* [continue] *)
  | LastPrice current_price =>
      prev_close ← lookup_prev_close ticker;
      if exceeds_threshold (pct_change current_price prev_close) then
        send_sms env
          {| alert_ticker := ticker;
             alert_direction := direction (pct_change current_price prev_close);
             alert_timestamp := now env ticker |}
      else ret tt
  end.

Definition check_tickers (env : tick) (tks : list string) : M unit :=
  for_each (check_price_body env) tks.

Definition check_price (env : tick) : M unit :=
  emit EnterCheckPrice ;;
  tks ← get_tickers;
  check_tickers env tks.

(** ** [start_monitoring] *)

(** The [while True] loop never returns by itself; a run is observed up to
    any finite number of firings of the scheduled job.  Each element of
    [ticks] is the outside world at one firing; the polls of
    [schedule.run_pending] that find nothing due, and the sleeps, leave no
    trace. *)
Fixpoint run_pending (ticks : list tick) : M unit :=
  match ticks with
  | [] => ret tt
  | env :: ticks' => check_price env ;; run_pending ticks'
  end.

Definition start_monitoring (history : history_source) (ticks : list tick) : M unit :=
  get_prev_close_prices history ;;
  run_pending ticks.

(** ** Reading a trace *)

Definition alert_of (e : event) : option alert :=
  match e with
  | MessagesCreate a => Some a
  | _ => None
  end.

(** The messages handed to the transport for [ticker], in order. *)
Definition alerts_for (ticker : string) (tr : list event) : list alert :=
  filter (λ a, alert_ticker a = ticker) (omap alert_of tr).

(** [DataFrame.empty] / the close that [get_prev_close_prices] stores. *)
Definition baseline_of (hist : list float) : option float :=
  match hist with
  | [] => None
  | first :: _ => Some (pick_prev_close first hist)
  end.

(** What one iteration of the loop of [get_prev_close_prices] leaves in the
    trace: the query, and the skip line when the frame is empty. *)
Definition load_trace_of (history : history_source) (ticker : string) : list event :=
  HistoryQuery ticker ::
    match history ticker with
    | [] => [PrintLine (no_history_line ticker)]
    | _ :: _ => []
    end.

(** Events that [get_prev_close_prices] can leave after its entry, and
    events that a tick can leave. *)
Definition load_event (e : event) : Prop :=
  match e with
  | HistoryQuery _ | PrintLine _ => True
  | _ => False
  end.

Definition tick_event (e : event) : Prop :=
  match e with
  | EnterCheckPrice | LastPriceQuery _ | PrintLine _ | MessagesCreate _ => True
  | _ => False
  end.

(** ** Concrete systems and worlds for the examples *)

(** The list of [__main__]. *)
Definition tickers_to_monitor : list string := ["SPY"; "IWM"; "QQQ"].

(** A market in which every ticker closed at 100.0 on its single bar. *)
Definition flat_history : history_source := λ _, [100%float].

(** A market with no bar for SPY, one bar for IWM and two bars for the
    others. *)
Definition patchy_history : history_source :=
  λ t, if decide (t = "SPY") then []
       else if decide (t = "IWM") then [100%float]
       else [100%float; 104%float].

(** One tick, given what the price query does for SPY, IWM and any other
    ticker, and whether the transport delivers. *)
Definition quotes (spy iwm others : fast_info_result) (delivers : bool) : tick :=
  {| last_price := λ t, if decide (t = "SPY") then spy
                        else if decide (t = "IWM") then iwm else others;
     now := λ _, "2024-01-02 10:00:00";
     messages_create := λ _, delivers |}.

(** Ticks of the examples. *)
Definition tick_iwm_up : tick :=
  quotes NoLastPrice (LastPrice 101.5%float) (LastPrice 100%float) true.

(** Every ticker is quoted 102.0 and the transport delivers. *)
Definition tick_all_up : tick :=
  quotes (LastPrice 102%float) (LastPrice 102%float) (LastPrice 102%float) true.

(** SPY is flat, the price query for IWM raises [KeyError], QQQ is up 2%. *)
Definition tick_iwm_missing : tick :=
  quotes (LastPrice 100%float) NoLastPrice (LastPrice 102%float) true.

(** As before, but the price query for IWM raises something else. *)
Definition tick_iwm_fails : tick :=
  quotes (LastPrice 100%float) (QueryFails "ConnectionError") (LastPrice 102%float) true.

(** Every ticker is quoted 102.0 and the transport raises. *)
Definition tick_transport_down : tick :=
  quotes (LastPrice 102%float) (LastPrice 102%float) (LastPrice 102%float) false.

(** A system that tracks the single symbol [X], with baseline 100.0, and a
    tick in which every price query answers [current_price]. *)
Definition one_symbol (X : string) : NotificationSystem :=
  {| tickers := [X]; prev_close_prices := {[ X := 100%float ]} |}.

Definition quote_all (current_price : float) (clock : string → string)
    (transport : string → bool) : tick :=
  {| last_price := λ _, LastPrice current_price;
     now := clock;
     messages_create := transport |}.

(** The object after start-up in each of the two markets. *)
Definition loaded_flat : NotificationSystem :=
  final (get_prev_close_prices flat_history (init tickers_to_monitor)).

Definition loaded_patchy : NotificationSystem :=
  final (get_prev_close_prices patchy_history (init tickers_to_monitor)).

(** SPY is quoted NaN, the others 102.0. *)
Definition tick_spy_nan : tick :=
  quotes (LastPrice nan) (LastPrice 102%float) (LastPrice 102%float) true.

(** ** Further readings of a trace *)

(** The tickers whose price a trace queries, in order. *)
Definition queries_of (tr : list event) : list string :=
  omap (λ e, match e with LastPriceQuery t => Some t | _ => None end) tr.



(** The iteration of [check_price] for [ticker] gets to its end: the price
    lookup answers or raises [KeyError]; when it answers, the previous
    close is stored and, if the threshold is reached, the transport
    delivers. *)
Definition iteration_passes (env : tick) (self : NotificationSystem)
    (ticker : string) : Prop :=
  match last_price env ticker with
  | NoLastPrice => True
  | QueryFails _ => False
  | LastPrice current_price =>
      match prev_close_prices self !! ticker with
      | None => False
      | Some prev_close =>
          exceeds_threshold (pct_change current_price prev_close) = true →
          messages_create env
            (message (mkAlert ticker
                        (direction (pct_change current_price prev_close))
                        (now env ticker))) = true
      end
  end.


(** * General facts about the monad and the loops *)

Ltac unfold_M :=
  unfold mbind, mret, M_bind, M_ret, bind, ret, raise, emit, get_tickers,
    set_prev_close, lookup_prev_close.

Lemma bind_Returned {A B} (m : M A) (k : A → M B) self a :
  outcome (m self) = Returned a →
  (m ≫= k) self =
    mkRun (trace (m self) ++ trace (k a (final (m self))))
          (final (k a (final (m self))))
          (outcome (k a (final (m self)))).
Proof. intros H. unfold_M. by rewrite H. Qed.

Lemma bind_Raised {A B} (m : M A) (k : A → M B) self e :
  outcome (m self) = Raised e →
  (m ≫= k) self = mkRun (trace (m self)) (final (m self)) (Raised e).
Proof. intros H. unfold_M. by rewrite H. Qed.

Lemma run_eta {A} (r : run A) : mkRun (trace r) (final r) (outcome r) = r.
Proof. by destruct r. Qed.

Lemma for_each_cons {A} (body : A → M unit) x l self :
  for_each body (x :: l) self = (body x ;; for_each body l) self.
Proof. reflexivity. Qed.

(** A loop over [l1 ++ l2] is the loop over [l1] followed, when that one
    returns, by the loop over [l2]. *)
Lemma for_each_app {A} (body : A → M unit) l1 l2 self :
  for_each body (l1 ++ l2) self = (for_each body l1 ;; for_each body l2) self.
Proof.
  revert self. induction l1 as [|x l1 IH]; intros self.
  - simpl. unfold_M. simpl. by rewrite run_eta.
  - simpl. unfold_M. destruct (outcome (body x self)) as [[]|e] eqn:Hx; simpl.
    + rewrite IH. unfold_M.
      destruct (outcome (for_each body l1 (final (body x self)))); simpl;
        by rewrite ?app_assoc.
    + done.
Qed.

(** ** [check_price] never writes to the object *)

Lemma check_price_body_final env ticker self :
  final (check_price_body env ticker self) = self.
Proof.
  unfold check_price_body, send_sms. unfold_M. simpl.
  destruct (last_price env ticker); simpl; try done.
  destruct (prev_close_prices self !! ticker); simpl; try done.
  destruct (exceeds_threshold _); simpl; try done.
  by destruct (messages_create env _).
Qed.

Lemma check_tickers_final env tks self :
  final (check_tickers env tks self) = self.
Proof.
  unfold check_tickers. induction tks as [|t tks IH]; [done|].
  rewrite for_each_cons.
  destruct (outcome (check_price_body env t self)) as [[]|e] eqn:Hb.
  - rewrite (bind_Returned _ _ _ _ Hb). cbn [final].
    by rewrite check_price_body_final.
  - rewrite (bind_Raised _ _ _ _ Hb). cbn [final].
    apply check_price_body_final.
Qed.

Lemma check_price_unfold env self :
  check_price env self =
    mkRun (EnterCheckPrice :: trace (check_tickers env (tickers self) self))
          self
          (outcome (check_tickers env (tickers self) self)).
Proof.
  unfold check_price. unfold_M. cbn [outcome final trace].
  pose proof (check_tickers_final env (tickers self) self) as Hf.
  destruct (check_tickers env (tickers self) self) as [tr fin [[]|e]];
    cbn in *; by subst.
Qed.

Lemma run_pending_cons env ticks self :
  run_pending (env :: ticks) self = (check_price env ;; run_pending ticks) self.
Proof. reflexivity. Qed.

Lemma run_pending_final ticks self :
  final (run_pending ticks self) = self.
Proof.
  induction ticks as [|env ticks IH]; [done|].
  rewrite run_pending_cons.
  destruct (outcome (check_price env self)) as [[]|e] eqn:Hc.
  - rewrite (bind_Returned _ _ _ _ Hc). cbn [final].
    rewrite check_price_unfold. cbn [final]. apply IH.
  - rewrite (bind_Raised _ _ _ _ Hc). cbn [final].
    by rewrite check_price_unfold.
Qed.

(** ** One iteration of the loop of [check_price], case by case *)

#[local] Arguments pct_change : simpl never.
#[local] Arguments exceeds_threshold : simpl never.
#[local] Arguments direction : simpl never.
#[local] Arguments message : simpl never.
#[local] Arguments unavailable_line : simpl never.
#[local] Arguments no_history_line : simpl never.

Section one_iteration.
Context (env : tick) (ticker : string) (self : NotificationSystem).

Lemma check_price_body_NoLastPrice :
  last_price env ticker = NoLastPrice →
  check_price_body env ticker self =
    mkRun [LastPriceQuery ticker; PrintLine (unavailable_line ticker)] self (Returned tt).
Proof. intros H. unfold check_price_body. unfold_M. by rewrite H. Qed.

Lemma check_price_body_QueryFails what :
  last_price env ticker = QueryFails what →
  check_price_body env ticker self =
    mkRun [LastPriceQuery ticker] self (Raised (MarketDataError what)).
Proof. intros H. unfold check_price_body. unfold_M. by rewrite H. Qed.

Lemma check_price_body_no_baseline current_price :
  last_price env ticker = LastPrice current_price →
  prev_close_prices self !! ticker = None →
  check_price_body env ticker self =
    mkRun [LastPriceQuery ticker] self (Raised (KeyError ticker)).
Proof.
  intros H Hn. unfold check_price_body. unfold_M. rewrite H. cbn. by rewrite Hn.
Qed.

Lemma check_price_body_quiet current_price prev_close :
  last_price env ticker = LastPrice current_price →
  prev_close_prices self !! ticker = Some prev_close →
  exceeds_threshold (pct_change current_price prev_close) = false →
  check_price_body env ticker self =
    mkRun [LastPriceQuery ticker] self (Returned tt).
Proof.
  intros H Hb Hq. unfold check_price_body. unfold_M. rewrite H. cbn.
  rewrite Hb. cbn. by rewrite Hq.
Qed.

Lemma check_price_body_alert current_price prev_close :
  last_price env ticker = LastPrice current_price →
  prev_close_prices self !! ticker = Some prev_close →
  exceeds_threshold (pct_change current_price prev_close) = true →
  let a := mkAlert ticker (direction (pct_change current_price prev_close))
                   (now env ticker) in
  check_price_body env ticker self =
    mkRun [LastPriceQuery ticker; MessagesCreate a] self
          (if messages_create env (message a) then Returned tt
           else Raised (TransportError (message a))).
Proof.
  intros H Hb Hq a. unfold check_price_body, send_sms. unfold_M. rewrite H. cbn.
  rewrite Hb. cbn. rewrite Hq. cbn. fold a.
  by destruct (messages_create env (message a)).
Qed.

(** Whatever happens, the iteration for [ticker] only leaves events that
    are about [ticker]. *)
Lemma check_price_body_events e :
  e ∈ trace (check_price_body env ticker self) →
  e = LastPriceQuery ticker ∨ e = PrintLine (unavailable_line ticker) ∨
  ∃ a, e = MessagesCreate a ∧ alert_ticker a = ticker.
Proof.
  destruct (last_price env ticker) as [c| |w] eqn:Hp.
  - destruct (prev_close_prices self !! ticker) as [b|] eqn:Hb.
    + destruct (exceeds_threshold (pct_change c b)) eqn:Hq.
      * rewrite (check_price_body_alert c b Hp Hb Hq). cbn [trace].
        rewrite !elem_of_cons, elem_of_nil. intros [->|[->|[]]]; eauto.
      * rewrite (check_price_body_quiet c b Hp Hb Hq). cbn [trace].
        rewrite elem_of_cons, elem_of_nil. intros [->|[]]; eauto.
    + rewrite (check_price_body_no_baseline c Hp Hb). cbn [trace].
      rewrite elem_of_cons, elem_of_nil. intros [->|[]]; eauto.
  - rewrite (check_price_body_NoLastPrice Hp). cbn [trace].
    rewrite !elem_of_cons, elem_of_nil. intros [->|[->|[]]]; eauto.
  - rewrite (check_price_body_QueryFails w Hp). cbn [trace].
    rewrite elem_of_cons, elem_of_nil. intros [->|[]]; eauto.
Qed.
End one_iteration.

(** ** The loop of [check_price] *)

Lemma check_tickers_cons_Returned env t tks self :
  outcome (check_price_body env t self) = Returned tt →
  check_tickers env (t :: tks) self =
    mkRun (trace (check_price_body env t self) ++ trace (check_tickers env tks self))
          self
          (outcome (check_tickers env tks self)).
Proof.
  intros Hb. unfold check_tickers. rewrite for_each_cons.
  rewrite (bind_Returned _ _ _ _ Hb). rewrite check_price_body_final.
  f_equal. apply (check_tickers_final env tks self).
Qed.

Lemma check_tickers_cons_Raised env t tks self e :
  outcome (check_price_body env t self) = Raised e →
  check_tickers env (t :: tks) self =
    mkRun (trace (check_price_body env t self)) self (Raised e).
Proof.
  intros Hb. unfold check_tickers. rewrite for_each_cons.
  rewrite (bind_Raised _ _ _ _ Hb). by rewrite check_price_body_final.
Qed.

Lemma check_tickers_app_Returned env pre post self :
  outcome (check_tickers env pre self) = Returned tt →
  check_tickers env (pre ++ post) self =
    mkRun (trace (check_tickers env pre self) ++ trace (check_tickers env post self))
          self
          (outcome (check_tickers env post self)).
Proof.
  intros Hp. unfold check_tickers in *. rewrite for_each_app.
  rewrite (bind_Returned _ _ _ _ Hp).
  pose proof (check_tickers_final env pre self) as Hf. unfold check_tickers in Hf.
  rewrite Hf. f_equal. apply (check_tickers_final env post self).
Qed.

(** Every event of the loop over [tks] is about one of [tks]. *)
Lemma check_tickers_events env tks self e :
  e ∈ trace (check_tickers env tks self) →
  ∃ t, t ∈ tks ∧
    (e = LastPriceQuery t ∨ e = PrintLine (unavailable_line t) ∨
     ∃ a, e = MessagesCreate a ∧ alert_ticker a = t).
Proof.
  induction tks as [|t tks IH].
  - cbn. by rewrite elem_of_nil.
  - destruct (outcome (check_price_body env t self)) as [[]|x] eqn:Hb.
    + rewrite (check_tickers_cons_Returned _ _ _ _ Hb). cbn [trace].
      rewrite elem_of_app. intros [He|He].
      * exists t. split; [left|]. by apply (check_price_body_events env t self).
      * destruct (IH He) as (t' & Ht' & H'). exists t'. split; [by right|done].
    + rewrite (check_tickers_cons_Raised _ _ _ _ _ Hb). cbn [trace].
      intros He. exists t. split; [left|].
      by apply (check_price_body_events env t self).
Qed.

Lemma alerts_for_app ticker tr1 tr2 :
  alerts_for ticker (tr1 ++ tr2) = alerts_for ticker tr1 ++ alerts_for ticker tr2.
Proof. unfold alerts_for. by rewrite omap_app, filter_app. Qed.

Lemma alerts_for_elem ticker tr a :
  a ∈ alerts_for ticker tr ↔ MessagesCreate a ∈ tr ∧ alert_ticker a = ticker.
Proof.
  unfold alerts_for. rewrite list_elem_of_filter, list_elem_of_omap. split.
  - intros [Ht (e & He & Ha)]. destruct e; try discriminate.
    injection Ha as ->. done.
  - intros [He Ht]. split; [done|]. by exists (MessagesCreate a).
Qed.

Lemma alerts_for_nil ticker tr :
  (∀ a, MessagesCreate a ∈ tr → alert_ticker a ≠ ticker) →
  alerts_for ticker tr = [].
Proof.
  intros H. destruct (alerts_for ticker tr) as [|a l] eqn:Heq; [done|].
  assert (a ∈ alerts_for ticker tr) as Ha by (rewrite Heq; left).
  apply alerts_for_elem in Ha as [Ha Ht]. by destruct (H a Ha).
Qed.

Lemma check_tickers_no_alert env tks self X :
  X ∉ tks → alerts_for X (trace (check_tickers env tks self)) = [].
Proof.
  intros HX. apply alerts_for_nil. intros a Ha Heq.
  apply check_tickers_events in Ha as (t & Ht & [H|[H|(a' & H & Ha')]]);
    try discriminate.
  injection H as <-. congruence.
Qed.

Lemma check_tickers_no_query env tks self X :
  X ∉ tks → LastPriceQuery X ∉ trace (check_tickers env tks self).
Proof.
  intros HX He.
  apply check_tickers_events in He as (t & Ht & [H|[H|(a' & H & Ha')]]);
    try discriminate.
  injection H as <-. done.
Qed.

(** * The tick: threshold, direction and failures *)

(** Closed facts about the examples are settled by evaluation. *)
Ltac by_computation :=
  first [ reflexivity
        | vm_compute; reflexivity
        | apply (bool_decide_unpack _); vm_compute; reflexivity ].

(** The alerts for [X] in the loop are decided by the comparison of the
    source, provided the loop gets as far as querying [X]. *)
Lemma check_tickers_alerts_for env self X B C tks :
  NoDup tks →
  LastPriceQuery X ∈ trace (check_tickers env tks self) →
  prev_close_prices self !! X = Some B →
  last_price env X = LastPrice C →
  alerts_for X (trace (check_tickers env tks self)) =
    if exceeds_threshold (pct_change C B)
    then [mkAlert X (direction (pct_change C B)) (now env X)]
    else [].
Proof.
  intros Hnd Hq HB HC. induction tks as [|t tks IH].
  - cbn in Hq. by apply elem_of_nil in Hq.
  - apply NoDup_cons in Hnd as [Ht Hnd].
    destruct (decide (t = X)) as [->|Hne].
    + pose proof (check_tickers_no_alert env tks self X Ht) as Hrest.
      destruct (exceeds_threshold (pct_change C B)) eqn:Hthr.
      * pose proof (check_price_body_alert env X self C B HC HB Hthr) as Hb.
        cbn zeta in Hb.
        destruct (messages_create env
                    (message (mkAlert X (direction (pct_change C B)) (now env X)))).
        -- rewrite (check_tickers_cons_Returned env X tks self) by (by rewrite Hb).
           cbn [trace]. rewrite alerts_for_app, Hrest, Hb. cbn [trace].
           unfold alerts_for. cbn. by rewrite decide_True.
        -- rewrite (check_tickers_cons_Raised env X tks self
                      (TransportError (message (mkAlert X (direction (pct_change C B)) (now env X)))))
             by (by rewrite Hb).
           rewrite Hb. cbn [trace]. unfold alerts_for. cbn. by rewrite decide_True.
      * pose proof (check_price_body_quiet env X self C B HC HB Hthr) as Hb.
        rewrite (check_tickers_cons_Returned env X tks self) by (by rewrite Hb).
        cbn [trace]. rewrite alerts_for_app, Hrest, Hb. done.
    + assert (alerts_for X (trace (check_price_body env t self)) = []) as Hnone.
      { apply alerts_for_nil. intros a Ha Heq.
        apply check_price_body_events in Ha as [H|[H|(a' & H & Ha')]];
          try discriminate.
        injection H as <-. congruence. }
      assert (LastPriceQuery X ∉ trace (check_price_body env t self)) as Hnq.
      { intros Ha.
        apply check_price_body_events in Ha as [H|[H|(a' & H & Ha')]];
          try discriminate.
        injection H as <-. done. }
      destruct (outcome (check_price_body env t self)) as [[]|e] eqn:Hb.
      * rewrite (check_tickers_cons_Returned _ _ _ _ Hb) in Hq |- *.
        cbn [trace] in Hq |- *. rewrite alerts_for_app, Hnone.
        apply elem_of_app in Hq as [Hq|Hq]; [done|]. by apply IH.
      * rewrite (check_tickers_cons_Raised _ _ _ _ _ Hb) in Hq.
        cbn [trace] in Hq. done.
Qed.

Lemma check_price_alerts_for env self X B C :
  NoDup (tickers self) →
  LastPriceQuery X ∈ trace (check_price env self) →
  prev_close_prices self !! X = Some B →
  last_price env X = LastPrice C →
  alerts_for X (trace (check_price env self)) =
    if exceeds_threshold (pct_change C B)
    then [mkAlert X (direction (pct_change C B)) (now env X)]
    else [].
Proof.
  rewrite check_price_unfold. cbn [trace]. intros Hnd Hq HB HC.
  apply elem_of_cons in Hq as [Hq|Hq]; [discriminate|].
  change (EnterCheckPrice :: ?l) with ([EnterCheckPrice] ++ l).
  rewrite alerts_for_app. cbn.
  by apply check_tickers_alerts_for.
Qed.

(** C1. For a symbol [X] with baseline [B] whose current price [C] is
    fetched during the tick (the tracked symbols being distinct),
    [check_price] hands exactly one message for [X] to the transport if and
    only if [abs((C - B) / B * 100) >= 1], and none otherwise; the direction
    in that message is "rise" when the percentage change is positive and
    "drop" when it is not.  The arithmetic is the binary64 one of the source;
    [B > 0] is not needed. *)
Theorem check_price_alert_iff env self X (B C : float) :
  NoDup (tickers self) →
  LastPriceQuery X ∈ trace (check_price env self) →
  prev_close_prices self !! X = Some B →
  last_price env X = LastPrice C →
  let pct := ((C - B) / B * 100)%float in
  let sent := alerts_for X (trace (check_price env self)) in
  (length sent = 1 ↔ (1 <=? abs pct)%float = true) ∧
  (length sent = 0 ↔ (1 <=? abs pct)%float = false) ∧
  (∀ a, a ∈ sent →
        a = mkAlert X (if (0 <? pct)%float then "rise" else "drop") (now env X)).
Proof.
  intros Hnd Hq HB HC pct sent.
  pose proof (check_price_alerts_for env self X B C Hnd Hq HB HC) as H.
  fold sent in H. unfold exceeds_threshold, direction, pct_change in H.
  fold pct in H. rewrite H.
  destruct (1 <=? abs pct)%float; cbn; repeat split; try done.
  - intros a Ha. by apply list_elem_of_singleton in Ha.
  - intros a Ha. by apply elem_of_nil in Ha.
Qed.

Lemma check_price_alert_iff_witness :
  (NoDup (tickers loaded_flat) ∧
   LastPriceQuery "IWM" ∈ trace (check_price tick_iwm_up loaded_flat) ∧
   prev_close_prices loaded_flat !! "IWM" = Some 100%float ∧
   last_price tick_iwm_up "IWM" = LastPrice 101.5%float) ∧
  length (alerts_for "IWM" (trace (check_price tick_iwm_up loaded_flat))) = 1 ∧
  (∀ a, a ∈ alerts_for "IWM" (trace (check_price tick_iwm_up loaded_flat)) →
        alert_direction a = "rise").
Proof.
  assert (NoDup (tickers loaded_flat)) as Hnd by by_computation.
  assert (LastPriceQuery "IWM" ∈ trace (check_price tick_iwm_up loaded_flat))
    as Hq by by_computation.
  assert (prev_close_prices loaded_flat !! "IWM" = Some 100%float)
    as HB by by_computation.
  assert (last_price tick_iwm_up "IWM" = LastPrice 101.5%float)
    as HC by by_computation.
  split; [done|].
  destruct (check_price_alert_iff tick_iwm_up loaded_flat "IWM" _ _ Hnd Hq HB HC)
    as (Hone & _ & Hdir).
  split.
  - apply Hone. by_computation.
  - intros a Ha. by rewrite (Hdir a Ha).
Defined.

(** ** What happens at the symbol the loop has reached *)

Lemma check_tickers_reach_Raised env pre X post self e :
  outcome (check_tickers env pre self) = Returned tt →
  outcome (check_price_body env X self) = Raised e →
  check_tickers env (pre ++ X :: post) self =
    mkRun (trace (check_tickers env pre self) ++ trace (check_price_body env X self))
          self (Raised e).
Proof.
  intros Hpre HX. rewrite (check_tickers_app_Returned _ _ _ _ Hpre).
  by rewrite (check_tickers_cons_Raised _ _ _ _ _ HX).
Qed.

Lemma check_tickers_reach_Returned env pre X post self :
  outcome (check_tickers env pre self) = Returned tt →
  outcome (check_price_body env X self) = Returned tt →
  check_tickers env (pre ++ X :: post) self =
    mkRun (trace (check_tickers env pre self) ++
           trace (check_price_body env X self) ++
           trace (check_tickers env post self))
          self (outcome (check_tickers env post self)).
Proof.
  intros Hpre HX. rewrite (check_tickers_app_Returned _ _ _ _ Hpre).
  by rewrite (check_tickers_cons_Returned _ _ _ _ HX).
Qed.

(** C6. [check_price] only reads the object: after any tick, whatever the
    market data and the transport answered and whether the tick returned
    or raised, the list of tickers and the dictionary of previous closes
    are the ones it started with; the same holds after any number of
    ticks. *)
Theorem check_price_leaves_object_unchanged env ticks self :
  final (check_price env self) = self ∧
  tickers (final (check_price env self)) = tickers self ∧
  prev_close_prices (final (check_price env self)) = prev_close_prices self ∧
  final (run_pending ticks self) = self.
Proof.
  rewrite check_price_unfold. cbn [final]. repeat split.
  apply run_pending_final.
Qed.

(** C2 (what the code does).  When the loop reaches a tracked ticker [X]
    that has no entry in [prev_close_prices] and whose current price is
    fetched, the lookup [self.prev_close_prices[X]] raises [KeyError]
    outside the [try]: the tick stops there and the tickers after [X] are
    not evaluated. *)
Theorem check_price_missing_baseline_raises env self pre X post C :
  tickers self = pre ++ X :: post →
  outcome (check_tickers env pre self) = Returned tt →
  prev_close_prices self !! X = None →
  last_price env X = LastPrice C →
  check_price env self =
    mkRun (EnterCheckPrice :: trace (check_tickers env pre self) ++ [LastPriceQuery X])
          self (Raised (KeyError X)).
Proof.
  intros Htk Hpre Hnone HC. rewrite check_price_unfold, Htk.
  pose proof (check_price_body_no_baseline env X self C HC Hnone) as Hb.
  rewrite (check_tickers_reach_Raised env pre X post self (KeyError X) Hpre)
    by (by rewrite Hb).
  by rewrite Hb.
Qed.

Lemma check_price_missing_baseline_raises_witness :
  (tickers loaded_patchy = [] ++ "SPY" :: ["IWM"; "QQQ"] ∧
   outcome (check_tickers tick_all_up [] loaded_patchy) = Returned tt ∧
   prev_close_prices loaded_patchy !! "SPY" = None ∧
   last_price tick_all_up "SPY" = LastPrice 102%float) ∧
  check_price tick_all_up loaded_patchy =
    mkRun [EnterCheckPrice; LastPriceQuery "SPY"] loaded_patchy
          (Raised (KeyError "SPY")).
Proof.
  assert (tickers loaded_patchy = [] ++ "SPY" :: ["IWM"; "QQQ"])
    as Htk by by_computation.
  assert (outcome (check_tickers tick_all_up [] loaded_patchy) = Returned tt)
    as Hpre by by_computation.
  assert (prev_close_prices loaded_patchy !! "SPY" = None)
    as Hnone by by_computation.
  assert (last_price tick_all_up "SPY" = LastPrice 102%float)
    as HC by by_computation.
  split; [done|].
  exact (check_price_missing_baseline_raises tick_all_up loaded_patchy
           [] "SPY" ["IWM"; "QQQ"] _ Htk Hpre Hnone HC).
Defined.

(** C4 (as the code has it).  When the loop reaches a symbol [X] whose
    price lookup raises [KeyError], [check_price] prints the warning for
    [X], hands no message for [X] to the transport, and goes on: the rest
    of the tick is exactly the evaluation of the symbols after [X].  The
    object is unchanged, so [X] is queried again by the next tick that
    reaches it. *)
Theorem check_price_skips_unavailable env self pre X post :
  tickers self = pre ++ X :: post →
  outcome (check_tickers env pre self) = Returned tt →
  last_price env X = NoLastPrice →
  check_price env self =
    mkRun (EnterCheckPrice :: trace (check_tickers env pre self) ++
           [LastPriceQuery X; PrintLine (unavailable_line X)] ++
           trace (check_tickers env post self))
          self (outcome (check_tickers env post self)) ∧
  (X ∉ pre → X ∉ post → alerts_for X (trace (check_price env self)) = []) ∧
  (∀ env', outcome (check_tickers env' pre self) = Returned tt →
           LastPriceQuery X ∈ trace (check_price env' (final (check_price env self)))).
Proof.
  intros Htk Hpre HX.
  pose proof (check_price_body_NoLastPrice env X self HX) as Hb.
  assert (check_price env self =
    mkRun (EnterCheckPrice :: trace (check_tickers env pre self) ++
           [LastPriceQuery X; PrintLine (unavailable_line X)] ++
           trace (check_tickers env post self))
          self (outcome (check_tickers env post self))) as Heq.
  { rewrite check_price_unfold, Htk.
    rewrite (check_tickers_reach_Returned env pre X post self Hpre)
      by (by rewrite Hb).
    by rewrite Hb. }
  split; [exact Heq|]. split.
  - intros Hpre' Hpost'. rewrite Heq. cbn [trace].
    change (EnterCheckPrice :: ?l) with ([EnterCheckPrice] ++ l).
    rewrite !alerts_for_app.
    rewrite (check_tickers_no_alert env pre self X Hpre').
    rewrite (check_tickers_no_alert env post self X Hpost'). done.
  - intros env' Hpre'. rewrite Heq. cbn [final].
    rewrite check_price_unfold, Htk. cbn [trace].
    rewrite (check_tickers_app_Returned _ _ _ _ Hpre'). cbn [trace].
    apply elem_of_cons. right. apply elem_of_app. right.
    assert (LastPriceQuery X ∈ trace (check_price_body env' X self)) as Hin.
    { unfold check_price_body. unfold_M. cbn.
      destruct (last_price env' X); cbn; [|left..].
      destruct (prev_close_prices self !! X); cbn; [|left].
      destruct (exceeds_threshold _); cbn; [|left].
      unfold send_sms. unfold_M. cbn.
      destruct (messages_create env' _); cbn; left. }
    destruct (outcome (check_price_body env' X self)) as [[]|e] eqn:Ho.
    + rewrite (check_tickers_cons_Returned _ _ _ _ Ho). cbn [trace].
      apply elem_of_app. by left.
    + by rewrite (check_tickers_cons_Raised _ _ _ _ _ Ho).
Qed.

Lemma check_price_skips_unavailable_witness :
  (tickers loaded_flat = ["SPY"] ++ "IWM" :: ["QQQ"] ∧
   outcome (check_tickers tick_iwm_missing ["SPY"] loaded_flat) = Returned tt ∧
   last_price tick_iwm_missing "IWM" = NoLastPrice) ∧
  check_price tick_iwm_missing loaded_flat =
    mkRun (EnterCheckPrice :: trace (check_tickers tick_iwm_missing ["SPY"] loaded_flat) ++
           [LastPriceQuery "IWM"; PrintLine (unavailable_line "IWM")] ++
           trace (check_tickers tick_iwm_missing ["QQQ"] loaded_flat))
          loaded_flat (outcome (check_tickers tick_iwm_missing ["QQQ"] loaded_flat)).
Proof.
  assert (tickers loaded_flat = ["SPY"] ++ "IWM" :: ["QQQ"]) as Htk by by_computation.
  assert (outcome (check_tickers tick_iwm_missing ["SPY"] loaded_flat) = Returned tt)
    as Hpre by by_computation.
  assert (last_price tick_iwm_missing "IWM" = NoLastPrice) as HX by by_computation.
  split; [done|].
  exact (proj1 (check_price_skips_unavailable tick_iwm_missing loaded_flat
                  ["SPY"] "IWM" ["QQQ"] Htk Hpre HX)).
Defined.

(** C4 (as stated) fails when the query fails with anything but [KeyError]:
    with SPY, IWM and QQQ tracked and all three baselines loaded, a tick in
    which the price query for IWM raises a connection error prints no
    warning for IWM and never evaluates QQQ; the exception leaves
    [check_price]. *)
Lemma check_price_query_failure_counterexample :
  last_price tick_iwm_fails "IWM" = QueryFails "ConnectionError" ∧
  (PrintLine (unavailable_line "IWM") ∉ trace (check_price tick_iwm_fails loaded_flat)) ∧
  (LastPriceQuery "QQQ" ∉ trace (check_price tick_iwm_fails loaded_flat)) ∧
  outcome (check_price tick_iwm_fails loaded_flat) =
    Raised (MarketDataError "ConnectionError").
Proof. repeat split; by_computation. Qed.

(** C9. When the loop reaches [X]: a [KeyError] from the price lookup is
    caught (the warning is printed and the iteration returns); any other
    exception raised by the query is not caught: it leaves [check_price]
    right after the query, and nothing is evaluated after [X]. *)
Theorem check_price_catches_only_KeyError env self pre X post :
  tickers self = pre ++ X :: post →
  outcome (check_tickers env pre self) = Returned tt →
  (last_price env X = NoLastPrice →
     check_price_body env X self =
       mkRun [LastPriceQuery X; PrintLine (unavailable_line X)] self (Returned tt)) ∧
  (∀ what, last_price env X = QueryFails what →
     check_price env self =
       mkRun (EnterCheckPrice :: trace (check_tickers env pre self) ++ [LastPriceQuery X])
             self (Raised (MarketDataError what))).
Proof.
  intros Htk Hpre. split.
  - apply check_price_body_NoLastPrice.
  - intros what HX. rewrite check_price_unfold, Htk.
    pose proof (check_price_body_QueryFails env X self what HX) as Hb.
    rewrite (check_tickers_reach_Raised env pre X post self (MarketDataError what) Hpre)
      by (by rewrite Hb).
    by rewrite Hb.
Qed.

Lemma check_price_catches_only_KeyError_witness :
  (tickers loaded_flat = ["SPY"] ++ "IWM" :: ["QQQ"] ∧
   outcome (check_tickers tick_iwm_fails ["SPY"] loaded_flat) = Returned tt ∧
   last_price tick_iwm_fails "IWM" = QueryFails "ConnectionError") ∧
  check_price tick_iwm_fails loaded_flat =
    mkRun (EnterCheckPrice :: trace (check_tickers tick_iwm_fails ["SPY"] loaded_flat) ++
           [LastPriceQuery "IWM"])
          loaded_flat (Raised (MarketDataError "ConnectionError")).
Proof.
  assert (tickers loaded_flat = ["SPY"] ++ "IWM" :: ["QQQ"]) as Htk by by_computation.
  assert (outcome (check_tickers tick_iwm_fails ["SPY"] loaded_flat) = Returned tt)
    as Hpre by by_computation.
  assert (last_price tick_iwm_fails "IWM" = QueryFails "ConnectionError")
    as HX by by_computation.
  split; [done|].
  exact (proj2 (check_price_catches_only_KeyError tick_iwm_fails loaded_flat
                  ["SPY"] "IWM" ["QQQ"] Htk Hpre) _ HX).
Defined.

(** ** A failing transport *)

Lemma check_price_body_sent env t self a :
  MessagesCreate a ∈ trace (check_price_body env t self) →
  trace (check_price_body env t self) = [LastPriceQuery t; MessagesCreate a] ∧
  outcome (check_price_body env t self) =
    if messages_create env (message a) then Returned tt
    else Raised (TransportError (message a)).
Proof.
  destruct (last_price env t) as [c| |w] eqn:Hp.
  - destruct (prev_close_prices self !! t) as [b|] eqn:Hb.
    + destruct (exceeds_threshold (pct_change c b)) eqn:Hq.
      * rewrite (check_price_body_alert env t self c b Hp Hb Hq). cbn [trace outcome].
        rewrite !elem_of_cons, elem_of_nil.
        intros [H|[H|[]]]; [discriminate|]. by injection H as ->.
      * rewrite (check_price_body_quiet env t self c b Hp Hb Hq). cbn [trace].
        rewrite elem_of_cons, elem_of_nil. intros [H|[]]; discriminate.
    + rewrite (check_price_body_no_baseline env t self c Hp Hb). cbn [trace].
      rewrite elem_of_cons, elem_of_nil. intros [H|[]]; discriminate.
  - rewrite (check_price_body_NoLastPrice env t self Hp). cbn [trace].
    rewrite !elem_of_cons, elem_of_nil. intros [H|[H|[]]]; discriminate.
  - rewrite (check_price_body_QueryFails env t self w Hp). cbn [trace].
    rewrite elem_of_cons, elem_of_nil. intros [H|[]]; discriminate.
Qed.

Lemma check_tickers_send_failure env self a tks :
  MessagesCreate a ∈ trace (check_tickers env tks self) →
  messages_create env (message a) = false →
  outcome (check_tickers env tks self) = Raised (TransportError (message a)) ∧
  ∃ before, trace (check_tickers env tks self) = before ++ [MessagesCreate a] ∧
            MessagesCreate a ∉ before.
Proof.
  intros Hin Hdown. induction tks as [|t tks IH].
  - cbn in Hin. by apply elem_of_nil in Hin.
  - destruct (outcome (check_price_body env t self)) as [[]|e] eqn:Hb.
    + rewrite (check_tickers_cons_Returned _ _ _ _ Hb) in Hin |- *.
      cbn [trace outcome] in Hin |- *.
      assert (MessagesCreate a ∉ trace (check_price_body env t self)) as Hnot.
      { intros H. apply check_price_body_sent in H as [_ H].
        rewrite Hdown, Hb in H. discriminate. }
      apply elem_of_app in Hin as [Hin|Hin]; [done|].
      destruct (IH Hin) as (Ho & before & Htr & Hbefore).
      split; [done|].
      exists (trace (check_price_body env t self) ++ before). split.
      * by rewrite Htr, app_assoc.
      * rewrite elem_of_app. by intros [?|?].
    + rewrite (check_tickers_cons_Raised _ _ _ _ _ Hb) in Hin |- *.
      cbn [trace outcome] in Hin |- *.
      apply check_price_body_sent in Hin as [Htr Ho].
      rewrite Hdown, Hb in Ho. split; [done|].
      exists [LastPriceQuery t]. split; [by rewrite Htr|].
      rewrite elem_of_cons, elem_of_nil. intros [H|[]]; discriminate.
Qed.

(** C5. When a tick hands a message to the transport and the transport
    raises, nothing catches it: [send_sms] raises, [check_price] raises the
    same exception, that single attempt is the last event of the tick (no
    retry, no later symbol), and the loop of [start_monitoring] ends with
    the tick (no later tick runs). *)
Theorem send_failure_propagates env self a later :
  MessagesCreate a ∈ trace (check_price env self) →
  messages_create env (message a) = false →
  outcome (send_sms env a self) = Raised (TransportError (message a)) ∧
  outcome (check_price env self) = Raised (TransportError (message a)) ∧
  (∃ before, trace (check_price env self) = before ++ [MessagesCreate a] ∧
             MessagesCreate a ∉ before) ∧
  run_pending (env :: later) self = check_price env self.
Proof.
  intros Hin Hdown.
  assert (outcome (check_price env self) = Raised (TransportError (message a)) ∧
          ∃ before, trace (check_price env self) = before ++ [MessagesCreate a] ∧
                    MessagesCreate a ∉ before) as [Ho Htr].
  { rewrite check_price_unfold in Hin |- *. cbn [trace outcome] in Hin |- *.
    apply elem_of_cons in Hin as [Hin|Hin]; [discriminate|].
    destruct (check_tickers_send_failure env self a _ Hin Hdown)
      as (Ho & before & Htr & Hbefore).
    split; [done|]. exists (EnterCheckPrice :: before). split.
    - by rewrite Htr.
    - rewrite elem_of_cons. intros [H|H]; [discriminate|done]. }
  split; [|split; [done|split; [done|]]].
  - unfold send_sms. unfold_M. cbn. by rewrite Hdown.
  - rewrite run_pending_cons, (bind_Raised _ _ _ _ Ho).
    rewrite <- Ho. apply run_eta.
Qed.

Lemma send_failure_propagates_witness :
  (MessagesCreate (mkAlert "SPY" "rise" "2024-01-02 10:00:00")
     ∈ trace (check_price tick_transport_down loaded_flat) ∧
   messages_create tick_transport_down
     (message (mkAlert "SPY" "rise" "2024-01-02 10:00:00")) = false) ∧
  outcome (check_price tick_transport_down loaded_flat) =
    Raised (TransportError "SPY: rise >= 1%, Timestamp: 2024-01-02 10:00:00") ∧
  run_pending [tick_transport_down; tick_all_up] loaded_flat =
    check_price tick_transport_down loaded_flat.
Proof.
  assert (MessagesCreate (mkAlert "SPY" "rise" "2024-01-02 10:00:00")
            ∈ trace (check_price tick_transport_down loaded_flat))
    as Hin by by_computation.
  assert (messages_create tick_transport_down
            (message (mkAlert "SPY" "rise" "2024-01-02 10:00:00")) = false)
    as Hdown by by_computation.
  split; [done|].
  destruct (send_failure_propagates tick_transport_down loaded_flat _ [tick_all_up]
              Hin Hdown) as (_ & Ho & _ & Hrun).
  split; [exact Ho | exact Hrun].
Defined.

(** ** The scenarios with baseline 100.0 *)

Lemma check_price_one_symbol c clock transport X :
  trace (check_price (quote_all c clock transport) (one_symbol X)) =
    EnterCheckPrice :: LastPriceQuery X ::
      if exceeds_threshold (pct_change c 100%float)
      then [MessagesCreate (mkAlert X (direction (pct_change c 100%float)) (clock X))]
      else [].
Proof.
  rewrite check_price_unfold. cbn [trace tickers one_symbol]. f_equal.
  set (env := quote_all c clock transport). set (self := one_symbol X).
  assert (last_price env X = LastPrice c) as Hp by done.
  assert (prev_close_prices self !! X = Some 100%float) as Hb
    by apply lookup_singleton_eq.
  destruct (exceeds_threshold (pct_change c 100%float)) eqn:Hq.
  - pose proof (check_price_body_alert env X self c _ Hp Hb Hq) as Hbody.
    cbn zeta in Hbody.
    destruct (outcome (check_price_body env X self)) as [[]|e] eqn:Ho.
    + rewrite (check_tickers_cons_Returned _ _ _ _ Ho). cbn [trace].
      by rewrite Hbody.
    + rewrite (check_tickers_cons_Raised _ _ _ _ _ Ho). cbn [trace].
      by rewrite Hbody.
  - pose proof (check_price_body_quiet env X self c _ Hp Hb Hq) as Hbody.
    rewrite (check_tickers_cons_Returned env X [] self) by (by rewrite Hbody).
    by rewrite Hbody.
Qed.

(** C7 (as stated) fails on the two falling prices: in binary64, the price
    written 99.2 gives a percentage change that is not the double written
    -0.8, and the price written 98.9 one that is not the double written
    -1.1. *)
Lemma scenario_pct_change_counterexample :
  pct_change 99.2%float 100%float ≠ (-0.8)%float ∧
  pct_change 98.9%float 100%float ≠ (-1.1)%float.
Proof.
  split; intros H.
  - apply (f_equal (λ x, PrimFloat.eqb x (-0.8)%float)) in H.
    vm_compute in H. discriminate.
  - apply (f_equal (λ x, PrimFloat.eqb x (-1.1)%float)) in H.
    vm_compute in H. discriminate.
Qed.

(** C7 (as the code computes it).  A system tracking one symbol with
    baseline 100.0:
    - at 101.5 the percentage change is exactly 1.5 and the tick hands
      exactly one message to the transport, with direction "rise";
    - at 99.2 the percentage change is -0.7999999999999973 (within 1e-14
      of -0.8) and the tick hands nothing to the transport;
    - at 98.9 the percentage change is -1.0999999999999943 (within 1e-14
      of -1.1) and the tick hands exactly one message to the transport,
      with direction "drop". *)
Theorem scenarios_baseline_100 X clock transport :
  (pct_change 101.5%float 100%float = 1.5%float ∧
   trace (check_price (quote_all 101.5%float clock transport) (one_symbol X)) =
     [EnterCheckPrice; LastPriceQuery X; MessagesCreate (mkAlert X "rise" (clock X))]) ∧
  (pct_change 99.2%float 100%float = (-0.7999999999999973)%float ∧
   (abs (pct_change 99.2%float 100%float - (-0.8)) <? 1e-14)%float = true ∧
   trace (check_price (quote_all 99.2%float clock transport) (one_symbol X)) =
     [EnterCheckPrice; LastPriceQuery X]) ∧
  (pct_change 98.9%float 100%float = (-1.0999999999999943)%float ∧
   (abs (pct_change 98.9%float 100%float - (-1.1)) <? 1e-14)%float = true ∧
   trace (check_price (quote_all 98.9%float clock transport) (one_symbol X)) =
     [EnterCheckPrice; LastPriceQuery X; MessagesCreate (mkAlert X "drop" (clock X))]).
Proof.
  rewrite !check_price_one_symbol.
  repeat split; try by_computation.
Qed.

(** * Start-up: loading the previous closes *)

Lemma get_prev_close_prices_body_run history t self :
  get_prev_close_prices_body history t self =
    mkRun (load_trace_of history t)
          (match baseline_of (history t) with
           | Some p => {| tickers := tickers self;
                          prev_close_prices := <[t := p]> (prev_close_prices self) |}
           | None => self
           end)
          (Returned tt).
Proof.
  unfold get_prev_close_prices_body, load_trace_of, baseline_of. unfold_M.
  by destruct (history t).
Qed.

Section load_loop.
Context (history : history_source).

Local Abbreviation loop := (for_each (get_prev_close_prices_body history)).

Lemma load_loop_cons t tks self :
  loop (t :: tks) self =
    mkRun (load_trace_of history t ++
           trace (loop tks (final (get_prev_close_prices_body history t self))))
          (final (loop tks (final (get_prev_close_prices_body history t self))))
          (outcome (loop tks (final (get_prev_close_prices_body history t self)))).
Proof.
  rewrite for_each_cons.
  rewrite (bind_Returned _ _ _ tt) by (by rewrite get_prev_close_prices_body_run).
  by rewrite get_prev_close_prices_body_run at 1.
Qed.

(** The loop always returns. *)
Lemma load_loop_outcome tks self : outcome (loop tks self) = Returned tt.
Proof.
  revert self. induction tks as [|t tks IH]; intros self; [done|].
  rewrite load_loop_cons. cbn [outcome]. apply IH.
Qed.

Lemma load_loop_trace tks self :
  trace (loop tks self) = tks ≫= load_trace_of history.
Proof.
  revert self. induction tks as [|t tks IH]; intros self; [done|].
  rewrite load_loop_cons. cbn [trace]. by rewrite IH.
Qed.

Lemma load_loop_tickers tks self :
  tickers (final (loop tks self)) = tickers self.
Proof.
  revert self. induction tks as [|t tks IH]; intros self; [done|].
  rewrite load_loop_cons. cbn [final]. rewrite IH.
  rewrite get_prev_close_prices_body_run. cbn [final].
  by destruct (baseline_of (history t)).
Qed.

(** The dictionary after the loop, key by key. *)
Lemma load_loop_lookup tks self k :
  prev_close_prices (final (loop tks self)) !! k =
    if decide (k ∈ tks ∧ history k ≠ []) then baseline_of (history k)
    else prev_close_prices self !! k.
Proof.
  revert self. induction tks as [|t tks IH]; intros self.
  - cbn. rewrite decide_False; [done|]. intros [H _]. by apply elem_of_nil in H.
  - rewrite load_loop_cons. cbn [final]. rewrite IH.
    rewrite get_prev_close_prices_body_run. cbn [final].
    destruct (decide (k ∈ tks ∧ history k ≠ [])) as [[Hin Hne]|Hno].
    + rewrite decide_True; [done|]. split; [by right|done].
    + destruct (decide (k = t)) as [->|Hkt].
      * destruct (history t) as [|c cs] eqn:Ht; cbn [baseline_of].
        -- rewrite decide_False; [done|]. by intros [_ ?].
        -- rewrite decide_True; [|split; [left|done]].
           cbn [prev_close_prices]. by rewrite lookup_insert_eq.
      * rewrite decide_False.
        2:{ intros [Hin Hne]. apply elem_of_cons in Hin as [?|Hin]; [done|].
            apply Hno. done. }
        destruct (baseline_of (history t)); [|done].
        cbn [prev_close_prices]. by rewrite lookup_insert_ne.
Qed.

Lemma load_loop_skip_printed tks t :
  t ∈ tks → history t = [] →
  PrintLine (no_history_line t) ∈ (tks ≫= load_trace_of history).
Proof.
  intros Hin Ht. apply list_elem_of_bind. exists t. split; [|done].
  unfold load_trace_of. rewrite Ht. right. left.
Qed.
End load_loop.

Lemma get_prev_close_prices_unfold history self :
  get_prev_close_prices history self =
    mkRun (EnterGetPrevClosePrices :: (tickers self ≫= load_trace_of history))
          (final (for_each (get_prev_close_prices_body history) (tickers self) self))
          (Returned tt).
Proof.
  unfold get_prev_close_prices. unfold_M. cbn [outcome final trace].
  rewrite load_loop_outcome, load_loop_trace. done.
Qed.

Lemma get_prev_close_prices_tickers history self :
  tickers (final (get_prev_close_prices history self)) = tickers self.
Proof. rewrite get_prev_close_prices_unfold. apply load_loop_tickers. Qed.

Lemma get_prev_close_prices_lookup history self k :
  prev_close_prices (final (get_prev_close_prices history self)) !! k =
    if decide (k ∈ tickers self ∧ history k ≠ []) then baseline_of (history k)
    else prev_close_prices self !! k.
Proof. rewrite get_prev_close_prices_unfold. apply load_loop_lookup. Qed.

Lemma NotificationSystem_eq (a b : NotificationSystem) :
  tickers a = tickers b → prev_close_prices a = prev_close_prices b → a = b.
Proof. destruct a, b. cbn. by intros -> ->. Qed.

(** C3. For a tracked symbol [t], after [get_prev_close_prices]:
    with at least two bars the stored baseline is the close of the first
    (earliest) bar; with exactly one bar it is that bar's close; with no
    bar nothing is stored for [t] (its entry is what it was before, hence
    absent when the dictionary started empty, as it does after [__init__])
    and the skip line for [t] is printed. *)
Theorem get_prev_close_prices_baseline history self t :
  t ∈ tickers self →
  (∀ c0 c1 rest, history t = c0 :: c1 :: rest →
     prev_close_prices (final (get_prev_close_prices history self)) !! t = Some c0) ∧
  (∀ c, history t = [c] →
     prev_close_prices (final (get_prev_close_prices history self)) !! t = Some c) ∧
  (history t = [] →
     prev_close_prices (final (get_prev_close_prices history self)) !! t
       = prev_close_prices self !! t ∧
     (prev_close_prices self = ∅ →
        prev_close_prices (final (get_prev_close_prices history self)) !! t = None) ∧
     PrintLine (no_history_line t) ∈ trace (get_prev_close_prices history self)).
Proof.
  intros Hin. rewrite get_prev_close_prices_lookup. repeat split.
  - intros c0 c1 rest Ht. rewrite decide_True; [|by rewrite Ht]. by rewrite Ht.
  - intros c Ht. rewrite decide_True; [|by rewrite Ht]. by rewrite Ht.
  - rewrite decide_False; [done|]. by intros [_ ?].
  - intros Hempty. rewrite decide_False; [|by intros [_ ?]].
    by rewrite Hempty, lookup_empty.
  - rewrite get_prev_close_prices_unfold. cbn [trace]. right.
    by apply load_loop_skip_printed.
Qed.

Lemma get_prev_close_prices_baseline_witness :
  "QQQ" ∈ tickers (init tickers_to_monitor) ∧
  prev_close_prices
    (final (get_prev_close_prices patchy_history (init tickers_to_monitor))) !! "QQQ"
  = Some 100%float.
Proof.
  assert ("QQQ" ∈ tickers (init tickers_to_monitor)) as Hin by by_computation.
  split; [done|].
  exact (proj1 (get_prev_close_prices_baseline patchy_history
                  (init tickers_to_monitor) "QQQ" Hin)
               100%float 104%float [] eq_refl).
Defined.

(** C10. [get_prev_close_prices] never removes an entry; the keys after the
    call are the keys before it together with the tracked tickers whose
    history is not empty; and calling it again on the same market data
    leaves the object (so the dictionary) as the first call left it. *)
Theorem get_prev_close_prices_monotone_idempotent history self :
  (∀ k, is_Some (prev_close_prices self !! k) →
        is_Some (prev_close_prices (final (get_prev_close_prices history self)) !! k)) ∧
  dom (prev_close_prices (final (get_prev_close_prices history self)))
    =@{gset string}
    dom (prev_close_prices self) ∪
    list_to_set (filter (λ t, history t ≠ []) (tickers self)) ∧
  prev_close_prices
    (final (get_prev_close_prices history
              (final (get_prev_close_prices history self))))
    = prev_close_prices (final (get_prev_close_prices history self)) ∧
  final (get_prev_close_prices history (final (get_prev_close_prices history self)))
    = final (get_prev_close_prices history self).
Proof.
  assert (∀ k, history k ≠ [] → is_Some (baseline_of (history k))) as Hsome.
  { intros k Hk. destruct (history k); [done|]. by eexists. }
  assert (prev_close_prices
            (final (get_prev_close_prices history
                      (final (get_prev_close_prices history self))))
          = prev_close_prices (final (get_prev_close_prices history self))) as Hidem.
  { apply map_eq. intros k.
    rewrite (get_prev_close_prices_lookup history (final _) k).
    rewrite get_prev_close_prices_tickers.
    rewrite (get_prev_close_prices_lookup history self k).
    by destruct (decide (k ∈ tickers self ∧ history k ≠ [])). }
  split; [|split; [|split]].
  - intros k Hk. rewrite get_prev_close_prices_lookup.
    destruct (decide (k ∈ tickers self ∧ history k ≠ [])) as [[_ Hne]|_];
      [by apply Hsome|done].
  - apply set_eq. intros k.
    rewrite elem_of_union, !elem_of_dom, elem_of_list_to_set, list_elem_of_filter.
    rewrite get_prev_close_prices_lookup.
    destruct (decide (k ∈ tickers self ∧ history k ≠ [])) as [[Hin Hne]|Hno].
    + split; [intros _; by right|intros _; by apply Hsome].
    + split; [by left|]. intros [?|[? ?]]; [done|]. by destruct Hno.
  - exact Hidem.
  - apply NotificationSystem_eq; [|exact Hidem].
    by rewrite !get_prev_close_prices_tickers.
Qed.

(** * The monitoring loop *)

Lemma load_trace_load_events history tks :
  Forall load_event (tks ≫= load_trace_of history).
Proof.
  apply Forall_forall. intros e He.
  apply list_elem_of_bind in He as (t & He & _).
  unfold load_trace_of in He. apply elem_of_cons in He as [->|He]; [done|].
  destruct (history t); [|by apply elem_of_nil in He].
  apply list_elem_of_singleton in He as ->. done.
Qed.

Lemma check_price_tick_events env self :
  Forall tick_event (trace (check_price env self)).
Proof.
  rewrite check_price_unfold. cbn [trace]. apply Forall_cons. split; [done|].
  apply Forall_forall. intros e He.
  apply check_tickers_events in He as (t & _ & [->|[->|(a & -> & _)]]); done.
Qed.

Lemma run_pending_tick_events ticks self :
  Forall tick_event (trace (run_pending ticks self)).
Proof.
  induction ticks as [|env ticks IH]; [by apply Forall_nil|].
  rewrite run_pending_cons.
  pose proof (check_price_tick_events env self) as Hc.
  destruct (outcome (check_price env self)) as [[]|e] eqn:Ho.
  - rewrite (bind_Returned _ _ _ _ Ho). cbn [trace].
    apply Forall_app. split; [done|].
    pose proof (check_price_unfold env self) as Hu.
    apply (f_equal final) in Hu. cbn [final] in Hu. by rewrite Hu.
  - by rewrite (bind_Raised _ _ _ _ Ho).
Qed.

Lemma start_monitoring_unfold history ticks self :
  start_monitoring history ticks self =
    mkRun (EnterGetPrevClosePrices :: (tickers self ≫= load_trace_of history) ++
           trace (run_pending ticks (final (get_prev_close_prices history self))))
          (final (get_prev_close_prices history self))
          (outcome (run_pending ticks (final (get_prev_close_prices history self)))).
Proof.
  unfold start_monitoring.
  rewrite (bind_Returned _ _ _ tt) by (by rewrite get_prev_close_prices_unfold).
  rewrite run_pending_final.
  by rewrite get_prev_close_prices_unfold at 1.
Qed.

(** C8. In a run of [start_monitoring], observed up to any number of
    ticks: [get_prev_close_prices] is entered exactly once, as the very
    first event; all of its history queries come before the first entry of
    [check_price] (so before every tick); nothing after them belongs to
    it; and every tick runs on the object that this one call left. *)
Theorem start_monitoring_loads_once_first history ticks self :
  trace (start_monitoring history ticks self) =
    EnterGetPrevClosePrices :: (tickers self ≫= load_trace_of history) ++
    trace (run_pending ticks (final (get_prev_close_prices history self))) ∧
  Forall load_event (tickers self ≫= load_trace_of history) ∧
  Forall tick_event
    (trace (run_pending ticks (final (get_prev_close_prices history self)))) ∧
  length (filter (λ e, e = EnterGetPrevClosePrices)
            (trace (start_monitoring history ticks self))) = 1 ∧
  (∀ i j t,
     trace (start_monitoring history ticks self) !! i = Some (HistoryQuery t) →
     trace (start_monitoring history ticks self) !! j = Some EnterCheckPrice →
     i < j) ∧
  final (start_monitoring history ticks self) =
    final (get_prev_close_prices history self).
Proof.
  rewrite start_monitoring_unfold. cbn [trace final].
  pose proof (load_trace_load_events history (tickers self)) as Hload.
  pose proof (run_pending_tick_events ticks
                (final (get_prev_close_prices history self))) as Hticks.
  set (load := tickers self ≫= load_trace_of history) in *.
  set (rest := trace (run_pending ticks (final (get_prev_close_prices history self)))) in *.
  split; [done|]. split; [done|]. split; [done|]. split; [|split; [|done]].
  - rewrite filter_cons_True by done. cbn [length]. f_equal.
    rewrite filter_app, length_app.
    assert (∀ l, Forall load_event l ∨ Forall tick_event l →
                 filter (λ e, e = EnterGetPrevClosePrices) l = []) as Hnone.
    { intros l Hl. induction l as [|e l IH]; [done|].
      assert (e ≠ EnterGetPrevClosePrices) as Hne.
      { intros ->. destruct Hl as [Hl|Hl]; apply Forall_cons in Hl as [Hl _]; done. }
      rewrite filter_cons_False by done. apply IH.
      destruct Hl as [Hl|Hl]; apply Forall_cons in Hl as [_ Hl]; auto. }
    by rewrite (Hnone load), (Hnone rest) by auto.
  - intros i j t Hi Hj.
    change (EnterGetPrevClosePrices :: load ++ rest)
      with ((EnterGetPrevClosePrices :: load) ++ rest) in Hi, Hj.
    apply lookup_app_Some in Hi as [Hi|[_ Hi]].
    2:{ by pose proof (proj1 (Forall_lookup _ _) Hticks _ _ Hi). }
    apply lookup_lt_Some in Hi.
    apply lookup_app_Some in Hj as [Hj|[Hj _]]; [|lia].
    destruct j as [|j]; [discriminate|]. cbn in Hj.
    by pose proof (proj1 (Forall_lookup _ _) Hload _ _ Hj).
Qed.

(** * Further properties of the tick *)

(** One iteration of [check_price] in closed form. *)
Lemma check_price_body_run env t self :
  check_price_body env t self =
    match last_price env t with
    | QueryFails what => mkRun [LastPriceQuery t] self (Raised (MarketDataError what))
    | NoLastPrice => mkRun [LastPriceQuery t; PrintLine (unavailable_line t)] self (Returned tt)
    | LastPrice c =>
        match prev_close_prices self !! t with
        | None => mkRun [LastPriceQuery t] self (Raised (KeyError t))
        | Some b =>
            if exceeds_threshold (pct_change c b) then
              mkRun [LastPriceQuery t;
                     MessagesCreate (mkAlert t (direction (pct_change c b)) (now env t))]
                    self
                    (if messages_create env
                          (message (mkAlert t (direction (pct_change c b)) (now env t)))
                     then Returned tt
                     else Raised (TransportError
                            (message (mkAlert t (direction (pct_change c b)) (now env t)))))
            else mkRun [LastPriceQuery t] self (Returned tt)
        end
    end.
Proof.
  destruct (last_price env t) as [c| |w] eqn:Hp.
  - destruct (prev_close_prices self !! t) as [b|] eqn:Hb.
    + destruct (exceeds_threshold (pct_change c b)) eqn:Hq.
      * apply (check_price_body_alert env t self c b Hp Hb Hq).
      * apply (check_price_body_quiet env t self c b Hp Hb Hq).
    + apply (check_price_body_no_baseline env t self c Hp Hb).
  - apply (check_price_body_NoLastPrice env t self Hp).
  - apply (check_price_body_QueryFails env t self w Hp).
Qed.

(** Every event of the loop comes from the iteration of a listed ticker. *)
Lemma check_tickers_event_origin env tks self e :
  e ∈ trace (check_tickers env tks self) →
  ∃ t, t ∈ tks ∧ e ∈ trace (check_price_body env t self).
Proof.
  induction tks as [|t tks IH].
  - cbn. by rewrite elem_of_nil.
  - destruct (outcome (check_price_body env t self)) as [[]|x] eqn:Hb.
    + rewrite (check_tickers_cons_Returned _ _ _ _ Hb). cbn [trace].
      rewrite elem_of_app. intros [He|He].
      * exists t. split; [left|done].
      * destruct (IH He) as (t' & Ht' & H'). exists t'. split; [by right|done].
    + rewrite (check_tickers_cons_Raised _ _ _ _ _ Hb). cbn [trace].
      intros He. exists t. split; [left|done].
Qed.

Lemma check_price_event_origin env self e :
  e ∈ trace (check_price env self) →
  e = EnterCheckPrice ∨
  ∃ t, t ∈ tickers self ∧ e ∈ trace (check_price_body env t self).
Proof.
  rewrite check_price_unfold. cbn [trace]. rewrite elem_of_cons.
  intros [->|He]; [by left|right]. by apply check_tickers_event_origin.
Qed.

Lemma check_price_body_alert_origin env self t a :
  MessagesCreate a ∈ trace (check_price_body env t self) →
  alert_ticker a = t ∧
  ∃ c b,
    last_price env t = LastPrice c ∧
    prev_close_prices self !! t = Some b ∧
    exceeds_threshold (pct_change c b) = true ∧
    alert_direction a = direction (pct_change c b) ∧
    alert_timestamp a = now env t.
Proof.
  intros Ha. rewrite check_price_body_run in Ha.
  destruct (last_price env t) as [c| |w] eqn:Hp; cbn [trace] in Ha.
  - destruct (prev_close_prices self !! t) as [b|] eqn:Hb; cbn [trace] in Ha.
    + destruct (exceeds_threshold (pct_change c b)) eqn:Hq; cbn [trace] in Ha.
      * apply elem_of_cons in Ha as [Ha|Ha]; [discriminate|].
        apply list_elem_of_singleton in Ha. injection Ha as ->. cbn.
        split; [done|]. by exists c, b.
      * apply list_elem_of_singleton in Ha. discriminate.
    + apply list_elem_of_singleton in Ha. discriminate.
  - apply elem_of_cons in Ha as [Ha|Ha]; [discriminate|].
    apply list_elem_of_singleton in Ha. discriminate.
  - apply list_elem_of_singleton in Ha. discriminate.
Qed.

(** X1. No false alert: every message that a tick hands to the transport is
    for a tracked ticker whose price was fetched, whose previous close is
    stored and whose change reaches the threshold; its direction and
    timestamp are the ones computed for that ticker. *)
Theorem check_price_alert_sound env self a :
  MessagesCreate a ∈ trace (check_price env self) →
  alert_ticker a ∈ tickers self ∧
  ∃ c b,
    last_price env (alert_ticker a) = LastPrice c ∧
    prev_close_prices self !! alert_ticker a = Some b ∧
    exceeds_threshold (pct_change c b) = true ∧
    alert_direction a = direction (pct_change c b) ∧
    alert_timestamp a = now env (alert_ticker a).
Proof.
  intros Ha. apply check_price_event_origin in Ha as [Ha|(t & Ht & Ha)];
    [discriminate|].
  apply check_price_body_alert_origin in Ha as (-> & c & b & H).
  split; [done|]. by exists c, b.
Qed.

Lemma check_price_alert_sound_witness :
  MessagesCreate (mkAlert "QQQ" "rise" "2024-01-02 10:00:00")
    ∈ trace (check_price tick_iwm_missing loaded_flat) ∧
  ∃ c b,
    last_price tick_iwm_missing "QQQ" = LastPrice c ∧
    prev_close_prices loaded_flat !! "QQQ" = Some b ∧
    exceeds_threshold (pct_change c b) = true.
Proof.
  assert (MessagesCreate (mkAlert "QQQ" "rise" "2024-01-02 10:00:00")
            ∈ trace (check_price tick_iwm_missing loaded_flat)) as Hin
    by by_computation.
  split; [done|].
  destruct (check_price_alert_sound tick_iwm_missing loaded_flat _ Hin)
    as (_ & c & b & Hc & Hb & Hq & _).
  by exists c, b.
Defined.

(** X2. No false warning: a tick prints nothing but the warning line of a
    tracked ticker whose price lookup raised [KeyError]. *)
Theorem check_price_warning_sound env self line :
  PrintLine line ∈ trace (check_price env self) →
  ∃ t, t ∈ tickers self ∧ line = unavailable_line t ∧
       last_price env t = NoLastPrice.
Proof.
  intros Ha. apply check_price_event_origin in Ha as [Ha|(t & Ht & Ha)];
    [discriminate|].
  exists t. split; [done|]. rewrite check_price_body_run in Ha.
  destruct (last_price env t) as [c| |w] eqn:Hp; cbn [trace] in Ha.
  - destruct (prev_close_prices self !! t) as [b|] eqn:Hb; cbn [trace] in Ha.
    + destruct (exceeds_threshold (pct_change c b)) eqn:Hq; cbn [trace] in Ha.
      * apply elem_of_cons in Ha as [Ha|Ha]; [discriminate|].
        apply list_elem_of_singleton in Ha. discriminate.
      * apply list_elem_of_singleton in Ha. discriminate.
    + apply list_elem_of_singleton in Ha. discriminate.
  - apply elem_of_cons in Ha as [Ha|Ha]; [discriminate|].
    apply list_elem_of_singleton in Ha. by injection Ha as ->.
  - apply list_elem_of_singleton in Ha. discriminate.
Qed.

Lemma check_price_warning_sound_witness :
  PrintLine "Unable to fetch the current price for IWM."
    ∈ trace (check_price tick_iwm_missing loaded_flat) ∧
  ∃ t, t ∈ tickers loaded_flat ∧
       "Unable to fetch the current price for IWM." = unavailable_line t ∧
       last_price tick_iwm_missing t = NoLastPrice.
Proof.
  assert (PrintLine "Unable to fetch the current price for IWM."
            ∈ trace (check_price tick_iwm_missing loaded_flat)) as Hin
    by by_computation.
  split; [done|].
  exact (check_price_warning_sound tick_iwm_missing loaded_flat _ Hin).
Defined.

(** ** When a tick returns and when it raises *)

Lemma check_price_body_passes env t self :
  outcome (check_price_body env t self) = Returned tt ↔ iteration_passes env self t.
Proof.
  rewrite check_price_body_run. unfold iteration_passes.
  destruct (last_price env t) as [c| |w]; cbn [outcome]; [|done|by split].
  destruct (prev_close_prices self !! t) as [b|]; cbn [outcome]; [|by split].
  destruct (exceeds_threshold (pct_change c b)); cbn [outcome]; [|by split].
  destruct (messages_create env _); split; try done.
  intros H. by specialize (H eq_refl).
Qed.

Lemma check_tickers_returns_iff env tks self :
  outcome (check_tickers env tks self) = Returned tt ↔
  Forall (iteration_passes env self) tks.
Proof.
  induction tks as [|t tks IH].
  - split; [by constructor|done].
  - rewrite Forall_cons, <- IH, <- check_price_body_passes.
    destruct (outcome (check_price_body env t self)) as [[]|e] eqn:Hb.
    + rewrite (check_tickers_cons_Returned _ _ _ _ Hb). cbn [outcome]. tauto.
    + rewrite (check_tickers_cons_Raised _ _ _ _ _ Hb). cbn [outcome].
      split; [done|]. by intros [? _].
Qed.

(** X3. A tick returns exactly when every tracked ticker passes: its price
    lookup answers or raises [KeyError], and when it answers, the previous
    close is stored and the transport delivers the message if one is due. *)
Theorem check_price_returns_iff env self :
  outcome (check_price env self) = Returned tt ↔
  Forall (iteration_passes env self) (tickers self).
Proof.
  rewrite check_price_unfold. cbn [outcome]. apply check_tickers_returns_iff.
Qed.

Lemma check_tickers_raise_origin env tks self e :
  outcome (check_tickers env tks self) = Raised e →
  ∃ t, t ∈ tks ∧ outcome (check_price_body env t self) = Raised e ∧
       ∀ x, x ∈ trace (check_price_body env t self) →
            x ∈ trace (check_tickers env tks self).
Proof.
  induction tks as [|t tks IH]; [done|].
  destruct (outcome (check_price_body env t self)) as [[]|x] eqn:Hb.
  - rewrite (check_tickers_cons_Returned _ _ _ _ Hb). cbn [outcome trace].
    intros He. destruct (IH He) as (t' & Ht' & Ho & Hsub).
    exists t'. split; [by right|]. split; [done|].
    intros y Hy. apply elem_of_app. right. by apply Hsub.
  - rewrite (check_tickers_cons_Raised _ _ _ _ _ Hb). cbn [outcome trace].
    intros [= ->]. exists t. split; [left|]. split; done.
Qed.



(** ** The order of the price queries *)

Lemma queries_of_app tr1 tr2 :
  queries_of (tr1 ++ tr2) = queries_of tr1 ++ queries_of tr2.
Proof. apply omap_app. Qed.

Lemma check_price_body_queries env t self :
  queries_of (trace (check_price_body env t self)) = [t] ∧
  (length (omap alert_of (trace (check_price_body env t self))) ≤ 1)%nat.
Proof.
  rewrite check_price_body_run.
  destruct (last_price env t) as [c| |w]; cbn; [|auto..].
  destruct (prev_close_prices self !! t) as [b|]; cbn; [|auto].
  destruct (exceeds_threshold (pct_change c b)); cbn; auto.
Qed.

Lemma check_tickers_queries env tks self :
  queries_of (trace (check_tickers env tks self)) `prefix_of` tks ∧
  (outcome (check_tickers env tks self) = Returned tt →
   queries_of (trace (check_tickers env tks self)) = tks) ∧
  (length (omap alert_of (trace (check_tickers env tks self)))
    ≤ length (queries_of (trace (check_tickers env tks self))))%nat.
Proof.
  induction tks as [|t tks (IHp & IHr & IHl)].
  - cbn. split; [done|]. split; [done|lia].
  - destruct (check_price_body_queries env t self) as [Hq Ha].
    destruct (outcome (check_price_body env t self)) as [[]|e] eqn:Hb.
    + rewrite (check_tickers_cons_Returned _ _ _ _ Hb). cbn [trace outcome].
      rewrite queries_of_app, omap_app, Hq, !length_app. cbn [app length].
      split; [by apply prefix_cons|]. split; [|lia].
      intros Ho. by rewrite (IHr Ho).
    + rewrite (check_tickers_cons_Raised _ _ _ _ _ Hb). cbn [trace outcome].
      rewrite Hq. split; [|split; [done|cbn; lia]].
      by exists tks.
Qed.

(** X5. A tick queries the prices in the order of the list of tickers and
    without a gap: the tickers it queries are a prefix of the list; and it
    hands at most one message to the transport per query. *)
Theorem check_price_queries_prefix env self :
  queries_of (trace (check_price env self)) `prefix_of` tickers self ∧
  (length (omap alert_of (trace (check_price env self)))
    ≤ length (queries_of (trace (check_price env self))))%nat.
Proof.
  rewrite check_price_unfold. cbn [trace].
  destruct (check_tickers_queries env (tickers self) self) as (Hp & _ & Hl).
  by split.
Qed.

(** X6. A tick that returns has queried every listed ticker exactly once per
    occurrence in the list, in order (a ticker listed twice is queried
    twice). *)
Theorem check_price_returns_queries_all env self :
  outcome (check_price env self) = Returned tt →
  queries_of (trace (check_price env self)) = tickers self.
Proof.
  rewrite check_price_unfold. cbn [trace outcome].
  apply check_tickers_queries.
Qed.

Lemma check_price_returns_queries_all_witness :
  outcome (check_price tick_iwm_missing loaded_flat) = Returned tt ∧
  queries_of (trace (check_price tick_iwm_missing loaded_flat)) =
    ["SPY"; "IWM"; "QQQ"].
Proof.
  assert (outcome (check_price tick_iwm_missing loaded_flat) = Returned tt)
    as Ho by by_computation.
  split; [done|].
  exact (check_price_returns_queries_all tick_iwm_missing loaded_flat Ho).
Defined.

(** * Further properties of the monitoring loop *)

Lemma check_price_final env self : final (check_price env self) = self.
Proof. by rewrite check_price_unfold. Qed.

Lemma run_pending_cons_Returned env ticks self :
  outcome (check_price env self) = Returned tt →
  run_pending (env :: ticks) self =
    mkRun (trace (check_price env self) ++ trace (run_pending ticks self))
          self (outcome (run_pending ticks self)).
Proof.
  intros Ho. rewrite run_pending_cons, (bind_Returned _ _ _ _ Ho).
  by rewrite check_price_final, run_pending_final.
Qed.

Lemma run_pending_cons_Raised env ticks self e :
  outcome (check_price env self) = Raised e →
  run_pending (env :: ticks) self =
    mkRun (trace (check_price env self)) self (Raised e).
Proof.
  intros Ho. rewrite run_pending_cons, (bind_Raised _ _ _ _ Ho).
  by rewrite check_price_final.
Qed.

(** X7. No cool-down: when a tick returns, firing the same tick [n] times
    hands the same messages to the transport [n] times over. *)
Theorem run_pending_repeats_alerts env self n :
  outcome (check_price env self) = Returned tt →
  omap alert_of (trace (run_pending (replicate n env) self)) =
    mjoin (replicate n (omap alert_of (trace (check_price env self)))).
Proof.
  intros Ho. induction n as [|n IH]; [done|].
  cbn [replicate]. rewrite (run_pending_cons_Returned _ _ _ Ho). cbn [trace].
  by rewrite omap_app, IH.
Qed.

Lemma run_pending_repeats_alerts_witness :
  outcome (check_price tick_iwm_up loaded_flat) = Returned tt ∧
  omap alert_of (trace (run_pending [tick_iwm_up; tick_iwm_up] loaded_flat)) =
    [mkAlert "IWM" "rise" "2024-01-02 10:00:00";
     mkAlert "IWM" "rise" "2024-01-02 10:00:00"].
Proof.
  assert (outcome (check_price tick_iwm_up loaded_flat) = Returned tt)
    as Ho by by_computation.
  split; [done|].
  exact (run_pending_repeats_alerts tick_iwm_up loaded_flat 2 Ho).
Defined.

(** X8. The loop of [start_monitoring] goes through all the ticks exactly
    when each of them returns; its trace is then the traces of the ticks
    one after the other. *)
Theorem run_pending_returns_iff ticks self :
  (outcome (run_pending ticks self) = Returned tt ↔
   Forall (λ env, outcome (check_price env self) = Returned tt) ticks) ∧
  (outcome (run_pending ticks self) = Returned tt →
   trace (run_pending ticks self) = ticks ≫= λ env, trace (check_price env self)).
Proof.
  induction ticks as [|env ticks [IHo IHt]].
  - split; [|done]. split; [by constructor|done].
  - destruct (outcome (check_price env self)) as [[]|e] eqn:Ho.
    + rewrite (run_pending_cons_Returned _ _ _ Ho). cbn [outcome trace].
      rewrite Forall_cons. split; [tauto|].
      intros Hr. cbn. by rewrite (IHt Hr).
    + rewrite (run_pending_cons_Raised _ _ _ _ Ho). cbn [outcome trace].
      rewrite Forall_cons. split; [|done]. split; [done|].
      intros [H _]. by rewrite Ho in H.
Qed.

(** X9. The first tick that raises ends the run, whatever the exception:
    the ticks before it ran in full, the trace ends with the trace of that
    tick, and the ticks after it leave nothing. *)
Theorem run_pending_stops_at_first_raise pre env later self e :
  Forall (λ env', outcome (check_price env' self) = Returned tt) pre →
  outcome (check_price env self) = Raised e →
  run_pending (pre ++ env :: later) self =
    mkRun ((pre ≫= λ env', trace (check_price env' self)) ++
           trace (check_price env self))
          self (Raised e).
Proof.
  intros Hpre He. induction pre as [|env' pre IH].
  - cbn [app]. by rewrite (run_pending_cons_Raised _ _ _ _ He).
  - apply Forall_cons in Hpre as [Ho Hpre]. cbn [app].
    rewrite (run_pending_cons_Returned _ _ _ Ho), (IH Hpre). cbn.
    by rewrite app_assoc.
Qed.

Lemma run_pending_stops_at_first_raise_witness :
  (Forall (λ env', outcome (check_price env' loaded_flat) = Returned tt)
          [tick_all_up] ∧
   outcome (check_price tick_iwm_fails loaded_flat) =
     Raised (MarketDataError "ConnectionError")) ∧
  run_pending ([tick_all_up] ++ tick_iwm_fails :: [tick_all_up]) loaded_flat =
    mkRun (([tick_all_up] ≫= λ env', trace (check_price env' loaded_flat)) ++
           trace (check_price tick_iwm_fails loaded_flat))
          loaded_flat (Raised (MarketDataError "ConnectionError")).
Proof.
  assert (Forall (λ env', outcome (check_price env' loaded_flat) = Returned tt)
                 [tick_all_up]) as Hpre.
  { constructor; [by_computation|constructor]. }
  assert (outcome (check_price tick_iwm_fails loaded_flat) =
            Raised (MarketDataError "ConnectionError")) as He by by_computation.
  split; [done|].
  exact (run_pending_stops_at_first_raise [tick_all_up] tick_iwm_fails
           [tick_all_up] loaded_flat _ Hpre He).
Defined.

(** * Further properties of the start-up *)

Lemma pick_prev_close_first first rest :
  pick_prev_close first (first :: rest) = first.
Proof.
  unfold pick_prev_close. destruct rest as [|c rest]; [done|].
  rewrite bool_decide_true; [done|cbn; lia].
Qed.

Lemma baseline_of_head hist : baseline_of hist = head hist.
Proof.
  destruct hist as [|first rest]; [done|].
  cbn [baseline_of head]. by rewrite pick_prev_close_first.
Qed.

(** X10. After [__init__] and [get_prev_close_prices], the dictionary maps
    every tracked ticker with a non-empty frame to the close of the first
    row of that frame, and has no other key.  (The two branches of the
    length test pick the same row: with a single row, [iloc[-1]] is
    [iloc[0]].) *)
Theorem startup_dictionary history tks k :
  prev_close_prices (final (get_prev_close_prices history (init tks))) !! k =
    if decide (k ∈ tks) then head (history k) else None.
Proof.
  rewrite get_prev_close_prices_lookup. cbn [tickers prev_close_prices init].
  rewrite lookup_empty.
  destruct (decide (k ∈ tks)) as [Hin|Hout].
  - destruct (history k) as [|c cs] eqn:Hk.
    + rewrite decide_False; [done|]. by intros [_ ?].
    + rewrite decide_True; [|done]. rewrite <- Hk. apply baseline_of_head.
  - rewrite decide_False; [done|]. by intros [? _].
Qed.



Lemma check_price_KeyError_missing env self k :
  outcome (check_price env self) = Raised (KeyError k) →
  k ∈ tickers self ∧ prev_close_prices self !! k = None.
Proof.
  rewrite check_price_unfold. cbn [outcome]. intros He.
  apply check_tickers_raise_origin in He as (t & Ht & Ho & _).
  rewrite check_price_body_run in Ho.
  destruct (last_price env t) as [c| |w]; cbn [outcome] in Ho; [|done..].
  destruct (prev_close_prices self !! t) as [b|] eqn:Hb; cbn [outcome] in Ho.
  - destruct (exceeds_threshold (pct_change c b)); cbn [outcome] in Ho; [|done].
    by destruct (messages_create env _).
  - by injection Ho as <-.
Qed.

(** X12. If at start-up every tracked ticker has a non-empty frame, no tick
    of the run ever raises [KeyError]. *)
Theorem no_KeyError_when_all_loaded history tks ticks k :
  (∀ t, t ∈ tks → history t ≠ []) →
  outcome (start_monitoring history ticks (init tks)) ≠ Raised (KeyError k).
Proof.
  intros Hall. rewrite start_monitoring_unfold. cbn [outcome].
  set (loaded := final (get_prev_close_prices history (init tks))).
  assert (∀ t, t ∈ tickers loaded → is_Some (prev_close_prices loaded !! t))
    as Hloaded.
  { intros t Ht. unfold loaded in *.
    rewrite get_prev_close_prices_tickers in Ht. cbn in Ht.
    rewrite get_prev_close_prices_lookup, decide_True by auto.
    specialize (Hall t Ht). destruct (history t); [done|]. by eexists. }
  clearbody loaded. induction ticks as [|env ticks IH]; [done|].
  destruct (outcome (check_price env loaded)) as [[]|e] eqn:Ho.
  - by rewrite (run_pending_cons_Returned _ _ _ Ho).
  - rewrite (run_pending_cons_Raised _ _ _ _ Ho). cbn [outcome].
    intros [= ->]. apply check_price_KeyError_missing in Ho as (Hk & Hnone).
    destruct (Hloaded k Hk) as [p Hp]. congruence.
Qed.

Lemma no_KeyError_when_all_loaded_witness :
  (∀ t, t ∈ tickers_to_monitor → flat_history t ≠ []) ∧
  outcome (start_monitoring flat_history [tick_all_up; tick_iwm_missing]
             (init tickers_to_monitor)) ≠ Raised (KeyError "SPY").
Proof.
  assert (∀ t, t ∈ tickers_to_monitor → flat_history t ≠ []) as Hall by done.
  split; [done|].
  exact (no_KeyError_when_all_loaded flat_history tickers_to_monitor
           [tick_all_up; tick_iwm_missing] "SPY" Hall).
Defined.

(** * The binary64 arithmetic of the threshold *)

(** The comparison and the percentage change, read through the IEEE 754
    specification of the primitive operations. *)
Lemma exceeds_threshold_spec pct :
  exceeds_threshold pct =
    SpecFloat.SFleb (FloatOps.Prim2SF 1%float) (SpecFloat.SFabs (FloatOps.Prim2SF pct)).
Proof.
  unfold exceeds_threshold. by rewrite FloatAxioms.leb_spec, FloatAxioms.abs_spec.
Qed.

Lemma pct_change_spec c b :
  FloatOps.Prim2SF (pct_change c b) =
    FloatAxioms.SF64mul
      (FloatAxioms.SF64div
         (FloatAxioms.SF64sub (FloatOps.Prim2SF c) (FloatOps.Prim2SF b))
         (FloatOps.Prim2SF b))
      (FloatOps.Prim2SF 100%float).
Proof.
  unfold pct_change.
  by rewrite FloatAxioms.mul_spec, FloatAxioms.div_spec, FloatAxioms.sub_spec.
Qed.

Lemma nan_never_exceeds x :
  exceeds_threshold (pct_change nan x) = false ∧
  exceeds_threshold (pct_change x nan) = false.
Proof.
  rewrite !exceeds_threshold_spec, !pct_change_spec.
  split; destruct (FloatOps.Prim2SF x); reflexivity.
Qed.

Lemma unchanged_never_exceeds x : exceeds_threshold (pct_change x x) = false.
Proof.
  rewrite exceeds_threshold_spec, pct_change_spec.
  destruct (FloatOps.Prim2SF x) as [s|s| |s m e]; try reflexivity.
  - by destruct s.
  - by destruct s.
  - cbv [FloatAxioms.SF64sub SpecFloat.SFsub]. rewrite Z.sub_diag.
    reflexivity.
Qed.

Lemma direction_sound pct :
  exceeds_threshold pct = true →
  (direction pct = "rise" ∧ (1 <=? pct)%float = true) ∨
  (direction pct = "drop" ∧ (pct <=? -1)%float = true).
Proof.
  rewrite exceeds_threshold_spec. unfold direction.
  rewrite FloatAxioms.ltb_spec, !FloatAxioms.leb_spec.
  assert (FloatOps.Prim2SF 1 = SpecFloat.S754_finite false 4503599627370496 (-52))
    as -> by (vm_compute; reflexivity).
  assert (FloatOps.Prim2SF (-1) = SpecFloat.S754_finite true 4503599627370496 (-52))
    as -> by (vm_compute; reflexivity).
  assert (FloatOps.Prim2SF 0 = SpecFloat.S754_zero false)
    as -> by (vm_compute; reflexivity).
  generalize 4503599627370496%positive. intros one.
  destruct (FloatOps.Prim2SF pct) as [s|s| |s m e].
  - by destruct s.
  - destruct s; [right|left]; done.
  - done.
  - intros H. destruct s; [right|left].
    + split; [done|]. revert H.
      unfold SpecFloat.SFleb, SpecFloat.SFcompare, SpecFloat.SFabs.
      rewrite (Z.compare_antisym e (-52)), !Pos.compare_cont_spec.
      rewrite (Pos.compare_antisym m one).
      destruct (e ?= -52)%Z; cbn [CompOpp]; try done.
      destruct (m ?= one)%positive; cbn [CompOpp Pos.switch_Eq]; done.
    + split; [done|]. exact H.
Qed.

(** X13. A ticker whose stored previous close is NaN, or whose fetched
    price is NaN, never gets a message in a tick (and the comparison does
    not raise). *)
Theorem nan_never_alerts env self t :
  prev_close_prices self !! t = Some nan ∨ last_price env t = LastPrice nan →
  alerts_for t (trace (check_price env self)) = [].
Proof.
  intros Hnan. apply alerts_for_nil. intros a Ha Ht.
  apply check_price_event_origin in Ha as [Ha|(t' & _ & Ha)]; [discriminate|].
  apply check_price_body_alert_origin in Ha as (Ht' & c & b & Hc & Hb & Hq & _).
  assert (t' = t) as -> by congruence.
  destruct Hnan as [Hn|Hn].
  - rewrite Hn in Hb. injection Hb as <-.
    destruct (nan_never_exceeds c) as [_ H]. congruence.
  - rewrite Hn in Hc. injection Hc as <-.
    destruct (nan_never_exceeds b) as [H _]. congruence.
Qed.

Lemma nan_never_alerts_witness :
  (prev_close_prices loaded_flat !! "SPY" = Some nan ∨
   last_price tick_spy_nan "SPY" = LastPrice nan) ∧
  alerts_for "SPY" (trace (check_price tick_spy_nan loaded_flat)) = [].
Proof.
  assert (prev_close_prices loaded_flat !! "SPY" = Some nan ∨
          last_price tick_spy_nan "SPY" = LastPrice nan) as H
    by (right; by_computation).
  split; [done|].
  exact (nan_never_alerts tick_spy_nan loaded_flat "SPY" H).
Defined.

(** X14. A ticker whose fetched price equals its stored previous close
    never gets a message, whatever that value is (zero, infinite and NaN
    included). *)
Theorem unchanged_price_never_alerts env self t p :
  prev_close_prices self !! t = Some p →
  last_price env t = LastPrice p →
  alerts_for t (trace (check_price env self)) = [].
Proof.
  intros Hp Hl. apply alerts_for_nil. intros a Ha Ht.
  apply check_price_event_origin in Ha as [Ha|(t' & _ & Ha)]; [discriminate|].
  apply check_price_body_alert_origin in Ha as (Ht' & c & b & Hc & Hb & Hq & _).
  assert (t' = t) as -> by congruence.
  rewrite Hp in Hb. rewrite Hl in Hc.
  injection Hb as <-. injection Hc as <-.
  by rewrite unchanged_never_exceeds in Hq.
Qed.

Lemma unchanged_price_never_alerts_witness :
  (prev_close_prices loaded_flat !! "SPY" = Some 100%float ∧
   last_price tick_iwm_missing "SPY" = LastPrice 100%float) ∧
  alerts_for "SPY" (trace (check_price tick_iwm_missing loaded_flat)) = [].
Proof.
  assert (prev_close_prices loaded_flat !! "SPY" = Some 100%float)
    as Hp by by_computation.
  assert (last_price tick_iwm_missing "SPY" = LastPrice 100%float)
    as Hl by by_computation.
  split; [done|].
  exact (unchanged_price_never_alerts tick_iwm_missing loaded_flat "SPY" _ Hp Hl).
Defined.

(** X15. The direction of a message tells the side of the move: a message
    with direction "rise" is sent only when the percentage change is at
    least 1, and one with direction "drop" only when it is at most -1. *)
Theorem alert_direction_tells_side env self a :
  MessagesCreate a ∈ trace (check_price env self) →
  ∃ c b,
    last_price env (alert_ticker a) = LastPrice c ∧
    prev_close_prices self !! alert_ticker a = Some b ∧
    ((alert_direction a = "rise" ∧ (1 <=? pct_change c b)%float = true) ∨
     (alert_direction a = "drop" ∧ (pct_change c b <=? -1)%float = true)).
Proof.
  intros Ha.
  apply check_price_event_origin in Ha as [Ha|(t & _ & Ha)]; [discriminate|].
  apply check_price_body_alert_origin in Ha as (-> & c & b & Hc & Hb & Hq & Hd & _).
  exists c, b. split; [done|]. split; [done|]. rewrite Hd.
  by apply direction_sound.
Qed.

Lemma alert_direction_tells_side_witness :
  MessagesCreate (mkAlert "QQQ" "rise" "2024-01-02 10:00:00")
    ∈ trace (check_price tick_iwm_missing loaded_flat) ∧
  ∃ c b,
    last_price tick_iwm_missing "QQQ" = LastPrice c ∧
    prev_close_prices loaded_flat !! "QQQ" = Some b ∧
    (("rise" = "rise" ∧ (1 <=? pct_change c b)%float = true) ∨
     ("rise" = "drop" ∧ (pct_change c b <=? -1)%float = true)).
Proof.
  assert (MessagesCreate (mkAlert "QQQ" "rise" "2024-01-02 10:00:00")
            ∈ trace (check_price tick_iwm_missing loaded_flat)) as Hin
    by by_computation.
  split; [done|].
  exact (alert_direction_tells_side tick_iwm_missing loaded_flat _ Hin).
Defined.

(** * No missed alert *)

Lemma check_tickers_returns_contains env tks self t e :
  outcome (check_tickers env tks self) = Returned tt →
  t ∈ tks →
  e ∈ trace (check_price_body env t self) →
  e ∈ trace (check_tickers env tks self).
Proof.
  induction tks as [|t' tks IH]; intros Ho Ht He.
  - by apply elem_of_nil in Ht.
  - destruct (outcome (check_price_body env t' self)) as [[]|x] eqn:Hb.
    + rewrite (check_tickers_cons_Returned _ _ _ _ Hb) in Ho |- *.
      cbn [outcome trace] in Ho |- *. apply elem_of_app.
      apply elem_of_cons in Ht as [->|Ht]; [by left|right; by apply IH].
    + rewrite (check_tickers_cons_Raised _ _ _ _ _ Hb) in Ho. discriminate.
Qed.

(** X16. No missed alert: in a tick that returns, every tracked ticker whose
    price was fetched, whose previous close is stored and whose change
    reaches the threshold had its message handed to the transport. *)
Theorem check_price_alert_complete env self t c b :
  outcome (check_price env self) = Returned tt →
  t ∈ tickers self →
  last_price env t = LastPrice c →
  prev_close_prices self !! t = Some b →
  exceeds_threshold (pct_change c b) = true →
  MessagesCreate (mkAlert t (direction (pct_change c b)) (now env t))
    ∈ trace (check_price env self).
Proof.
  rewrite check_price_unfold. cbn [outcome trace]. intros Ho Ht Hc Hb Hq.
  right. apply (check_tickers_returns_contains env _ self t _ Ho Ht).
  rewrite (check_price_body_alert env t self c b Hc Hb Hq). cbn [trace].
  right. left.
Qed.

Lemma check_price_alert_complete_witness :
  (outcome (check_price tick_iwm_missing loaded_flat) = Returned tt ∧
   "QQQ" ∈ tickers loaded_flat ∧
   last_price tick_iwm_missing "QQQ" = LastPrice 102%float ∧
   prev_close_prices loaded_flat !! "QQQ" = Some 100%float ∧
   exceeds_threshold (pct_change 102%float 100%float) = true) ∧
  MessagesCreate (mkAlert "QQQ" (direction (pct_change 102%float 100%float))
                          (now tick_iwm_missing "QQQ"))
    ∈ trace (check_price tick_iwm_missing loaded_flat).
Proof.
  assert (outcome (check_price tick_iwm_missing loaded_flat) = Returned tt)
    as Ho by by_computation.
  assert ("QQQ" ∈ tickers loaded_flat) as Ht by by_computation.
  assert (last_price tick_iwm_missing "QQQ" = LastPrice 102%float)
    as Hc by by_computation.
  assert (prev_close_prices loaded_flat !! "QQQ" = Some 100%float)
    as Hb by by_computation.
  assert (exceeds_threshold (pct_change 102%float 100%float) = true)
    as Hq by by_computation.
  split; [done|].
  exact (check_price_alert_complete tick_iwm_missing loaded_flat "QQQ" _ _
           Ho Ht Hc Hb Hq).
Defined.
